(** * cms_hospitals_downloader: header normalizer, validator probe,
      download pipeline, sync orchestrator, batch runner and ledger.

    A shallow embedding of [cms_hospitals_downloader.py].  Text is carried
    as [string]; the regular-expression steps work on the list of its
    characters.  A character is a code point in U+0000..U+00FF (the 8-bit
    [ascii] type), classified as CPython classifies those code points. *)

From Stdlib Require Import Ascii String List Bool NArith ZArith Lia.
From stdpp Require Import gmap strings.
Import ListNotations.

Local Open Scope list_scope.

(** ** Characters *)

Module Chars.

Definition code (c : ascii) : N := N_of_ascii c.

Definition in_range (lo hi : N) (c : ascii) : bool :=
  ((lo <=? code c) && (code c <=? hi))%N.

Definition space : ascii := " "%char.
Definition underscore : ascii := "_"%char.

(** [[A-Z]] of the camel-case pattern. *)
Definition is_upper_AZ (c : ascii) : bool := in_range 65 90 c.

(** [[a-z0-9]] of the look-behind. *)
Definition is_lower_or_digit (c : ascii) : bool :=
  in_range 97 122 c || in_range 48 57 c.

(** [\s] on a str pattern, and the characters [str.strip()] removes:
    TAB..CR, FS..US, SPACE, NEL, NBSP. *)
Definition is_space (c : ascii) : bool :=
  in_range 9 13 c || in_range 28 32 c
  || (code c =? 133)%N || (code c =? 160)%N.

(** Alphanumeric code points below U+0100: digits, letters, the ordinal
    indicators, the micro sign, superscript digits, vulgar fractions and
    the accented letters (all of U+00C0..U+00FF except the two operators
    U+00D7 and U+00F7). *)
Definition is_alnum (c : ascii) : bool :=
  in_range 48 57 c || in_range 65 90 c || in_range 97 122 c
  || (code c =? 170)%N || in_range 178 179 c || (code c =? 181)%N
  || in_range 185 186 c || in_range 188 190 c
  || in_range 192 214 c || in_range 216 246 c || in_range 248 255 c.

(** [\w] on a str pattern. *)
Definition is_word (c : ascii) : bool :=
  is_alnum c || Ascii.eqb c underscore.

(** The class [[_\s]] of the per-token clean-up. *)
Definition is_us_or_space (c : ascii) : bool :=
  Ascii.eqb c underscore || is_space c.

(** [str.lower()] on one character: A-Z and the accented capitals
    U+00C0..U+00DE (without U+00D7) move up by 32. *)
Definition lower (c : ascii) : ascii :=
  if in_range 65 90 c || in_range 192 214 c || in_range 216 222 c
  then ascii_of_N (code c + 32)
  else c.

End Chars.

(** ** Header normalizer *)

Module Normalizer.
Import Chars.

Definition text := list ascii.

(** [re.sub(r"[^\w\s]", " ", s)] *)
Definition sub_special (s : text) : text :=
  map (fun c => if is_word c || is_space c then c else space) s.

(** [re.sub(p+, r, s)] for a character class [p] and a one-character
    replacement [r]: every maximal run of [p]-characters becomes one [r].
    [in_run] says that the previous character belonged to a run. *)
Fixpoint sub_runs_from (p : ascii -> bool) (r : ascii) (in_run : bool)
    (s : text) : text :=
  match s with
  | [] => []
  | c :: s' =>
      if p c then
        if in_run then sub_runs_from p r true s'
        else r :: sub_runs_from p r true s'
      else c :: sub_runs_from p r false s'
  end.

Definition sub_runs (p : ascii -> bool) (r : ascii) (s : text) : text :=
  sub_runs_from p r false s.

Fixpoint lstrip (s : text) : text :=
  match s with
  | [] => []
  | c :: s' => if is_space c then lstrip s' else s
  end.

(** [str.strip()] *)
Definition strip (s : text) : text := rev (lstrip (rev (lstrip s))).

(** [re.sub(r"(?<=[a-z0-9])([A-Z])", r" \1", s)]: the look-behind reads
    the character before the capital in the subject string. *)
Fixpoint camel_from (prev : option ascii) (s : text) : text :=
  match s with
  | [] => []
  | c :: s' =>
      let boundary :=
        is_upper_AZ c &&
        match prev with Some q => is_lower_or_digit q | None => false end in
      if boundary then space :: c :: camel_from (Some c) s'
      else c :: camel_from (Some c) s'
  end.

Definition camel (s : text) : text := camel_from None s.

(** [s.split(sep)] with an explicit separator: one piece more than there
    are separators, empty pieces kept. *)
Fixpoint split_on (sep : ascii) (s : text) : list text :=
  match s with
  | [] => [[]]
  | c :: s' =>
      if Ascii.eqb c sep then [] :: split_on sep s'
      else match split_on sep s' with
           | [] => [[c]]
           | p :: ps => (c :: p) :: ps
           end
  end.

Definition nonempty (p : text) : bool :=
  match p with [] => false | _ => true end.

(** [re.sub(r"[_\s]+", "_", p).lower()] *)
Definition sanitize (p : text) : text :=
  map lower (sub_runs is_us_or_space underscore p).

(** [sep.join(parts)] for a one-character separator. *)
Fixpoint join (sep : ascii) (parts : list text) : text :=
  match parts with
  | [] => []
  | [p] => p
  | p :: ps => p ++ sep :: join sep ps
  end.

(** The body of [to_snake_case] after the [None] test. *)
Definition snake (s : text) : text :=
  let s1 := sub_special s in
  let s2 := strip (sub_runs is_space space s1) in
  let s3 := camel s2 in
  let parts := split_on space s3 in
  let parts := map sanitize (List.filter nonempty parts) in
  join underscore parts.

Definition to_snake_case (s : option string) : string :=
  match s with
  | None => EmptyString
  | Some s => string_of_list_ascii (snake (list_ascii_of_string s))
  end.

(** Shapes the specification forbids in an output. *)
Definition leading_us (s : text) : bool :=
  match s with c :: _ => Ascii.eqb c underscore | [] => false end.

Definition trailing_us (s : text) : bool := leading_us (rev s).

Fixpoint doubled_us (s : text) : bool :=
  match s with
  | c :: (d :: _) as s' =>
      (Ascii.eqb c underscore && Ascii.eqb d underscore) || doubled_us s'
  | _ => false
  end.



End Normalizer.

Import Normalizer.

(** ** Python values, exceptions and results *)

Module Py.

(** Truth value of an [Optional[str]]: [None] and the empty string are
    false. *)
Definition truthy (o : option string) : bool :=
  match o with
  | Some (String _ _) => true
  | _ => false
  end.

(** [a or b] *)
Definition py_or (a b : option string) : option string :=
  if truthy a then a else b.

(** [a == b] where one side may be [None]. *)
Definition py_eq (a b : option string) : bool := bool_decide (a = b).

(** The [Exception] subclasses the program can meet. *)
Inductive exn : Type :=
  | ClientError        (* aiohttp connection and protocol errors *)
  | ResponseError      (* raise_for_status on a non-success status *)
  | TimeoutError
  | OSError
  | FileNotFoundError
  | ValueError
  | TypeError
  | ParserError
  | UnicodeDecodeError
  | JSONDecodeError.

End Py.

Import Py.

(** ** Paths (pathlib, POSIX flavour) *)

Module Paths.

(** The components of a path; an absolute path starts with the root
    component ["/"]. *)
Definition path := list string.

Definition slash : ascii := "/"%char.
Definition dot : ascii := "."%char.
Definition root : string := "/"%string.

Definition component_ok (p : text) : bool :=
  nonempty p && negb (bool_decide (p = [dot])).

(** [Path(s)]: empty and ["."] components disappear.  (pathlib keeps a
    root of exactly two slashes as it is; here every leading slash gives
    the root ["/"].) *)
Definition parse (s : string) : path :=
  let l := list_ascii_of_string s in
  let comps :=
    map string_of_list_ascii (List.filter component_ok (split_on slash l)) in
  match l with
  | c :: _ => if Ascii.eqb c slash then root :: comps else comps
  | [] => comps
  end.

Definition is_absolute (p : path) : bool :=
  match p with
  | r :: _ => bool_decide (r = root)
  | [] => false
  end.

(** [p / s] *)
Definition joinpath (p : path) (s : string) : path :=
  let q := parse s in
  if is_absolute q then q else p ++ q.

(** [p.name] *)
Definition name (p : path) : string :=
  match rev p with
  | [] => EmptyString
  | n :: _ => if bool_decide (n = root) then EmptyString else n
  end.

(** [p.parent] *)
Definition parent (p : path) : path :=
  if bool_decide (name p = EmptyString) then p else removelast p.

(** [s.rfind(ch)] *)
Fixpoint rfind (ch : ascii) (s : text) : option nat :=
  match s with
  | [] => None
  | c :: s' =>
      match rfind ch s' with
      | Some i => Some (S i)
      | None => if Ascii.eqb c ch then Some 0 else None
      end
  end.

(** [p.suffix], on the name: from the last dot, unless that dot is the
    first or the last character. *)
Definition suffix (n : text) : text :=
  match rfind dot n with
  | Some i => if (0 <? i) && (i <? length n - 1) then skipn i n else []
  | None => []
  end.

(** [p.with_suffix(suf)] *)
Definition with_suffix (p : path) (suf : string) : exn + path :=
  let n := list_ascii_of_string (name p) in
  match n with
  | [] => inl ValueError
  | _ =>
      let stem := firstn (length n - length (suffix n)) n in
      inr (removelast p ++ [string_of_list_ascii stem +:+ suf])
  end.

End Paths.

Import Paths.

(** ** Data model *)

Definition bytes := list ascii.

(** A ledger entry, as [process_distribution] writes it. *)
Record entry : Type := mkEntry {
  e_url : string;
  e_filename : string;
  e_last_modified : option string;
  e_etag : option string;
  e_downloaded_at : string;
  e_rows : nat;
  e_cols : nat
}.

(** The [metadata] dict: composite key to entry. *)
Abbreviation ledger := (gmap string entry).

(** A distribution descriptor, as [find_csv_distributions] builds it. *)
Record dist : Type := mkDist {
  d_url : string;
  d_filename : option string;
  d_last_modified : option string;
  d_etag : option string
}.

(** Response headers: a multi-dict with case-insensitive keys. *)
Definition headers := list (string * string).

Definition lower_string (s : string) : string :=
  string_of_list_ascii (map Chars.lower (list_ascii_of_string s)).

(** [resp.headers.get(k)] *)
Fixpoint headers_get (h : headers) (k : string) : option string :=
  match h with
  | [] => None
  | (k', v) :: h' =>
      if bool_decide (lower_string k' = lower_string k) then Some v
      else headers_get h' k
  end.

(** What [head_info] returns: the dict with the two validator fields. *)
Record validators : Type := mkValidators {
  v_last_modified : option string;
  v_etag : option string
}.

(** What pandas keeps of a CSV file: the column labels and the rows. *)
Record dataframe : Type := mkFrame {
  columns : list string;
  rows : list (list string)
}.

(** The body request of [download_csv] as the network answers it: the
    request itself fails, or a response arrives whose body yields some
    chunks and then ends or breaks off. *)
Inductive body_outcome : Type :=
  | BodyRequestFails (e : exn)
  | BodyResponse (status_ok : bool) (chunks : list bytes)
                 (broken : option exn).

(** Everything outside the program that one distribution's run meets. *)
Record env : Type := mkEnv {
  head_response : exn + headers;
  probe_get_response : exn + headers;
  body_response : body_outcome;
  mkdir_error : option exn;
  open_error : option exn;
  replace_error : option exn;
  unlink_error : option exn;
  pd_read_csv : bytes -> exn + dataframe;
  pd_read_csv_utf8 : bytes -> exn + dataframe;
  pd_to_csv : dataframe -> option bytes * option exn;
  utcnow_isoformat : string
}.

(** Network requests and log lines, in the order they happen. *)
Inductive event : Type :=
  | EvHead (url : string)
  | EvProbeGet (url : string)
  | EvBodyGet (url : string)
  | LogChecking (url : string)
  | LogProbeFailed (url : string)
  | LogSkipEtag (filename : string)
  | LogSkipLastModified (filename : string)
  | LogDownloading (url : string) (dest : path)
  | LogDownloaded (dest : path)
  | LogPandasRetry (dest : path)
  | LogProcessed (name : string) (nrows ncols : nat)
  | LogFailed (url : string)
  | LogMetadataUnreadable
  | LogListingFailed
  | LogUnexpectedListing
  | LogNoDistributions
  | LogRunComplete.

(** The state the tasks share: the files on disk, the [metadata] dict and
    the free slots of the semaphore. *)
Record world : Type := mkWorld {
  fs : gmap path bytes;
  metadata : ledger;
  free_slots : nat
}.

(** ** Effects *)

Module Eff.

(** How a call ends: it returns, it raises, or it waits for a semaphore
    slot that nobody will free. *)
Inductive result (A : Type) : Type :=
  | Ok (a : A)
  | Raise (e : exn)
  | Blocked.
Arguments Ok {A} a.
Arguments Raise {A} e.
Arguments Blocked {A}.

Record out (A : Type) : Type := mkOut {
  res : result A;
  post : world;
  emitted : list event
}.
Arguments mkOut {A} res post emitted.
Arguments res {A} o.
Arguments post {A} o.
Arguments emitted {A} o.

Definition M (A : Type) : Type := world -> out A.

Definition ret {A} (a : A) : M A := fun w => mkOut (Ok a) w [].

Definition raise {A} (e : exn) : M A := fun w => mkOut (Raise e) w [].

Definition bind {A B} (m : M A) (k : A -> M B) : M B :=
  fun w =>
    let o := m w in
    match res o with
    | Ok a =>
        let o' := k a (post o) in
        mkOut (res o') (post o') (emitted o ++ emitted o')
    | Raise e => mkOut (Raise e) (post o) (emitted o)
    | Blocked => mkOut Blocked (post o) (emitted o)
    end.

(** [try: m  except Exception as e: h e] *)
Definition try_except {A} (m : M A) (h : exn -> M A) : M A :=
  fun w =>
    let o := m w in
    match res o with
    | Raise e =>
        let o' := h e (post o) in
        mkOut (res o') (post o') (emitted o ++ emitted o')
    | _ => o
    end.

(** [try: m  finally: f]; an exception of [f] replaces the outcome of
    [m]. *)
Definition try_finally {A} (m : M A) (f : M unit) : M A :=
  fun w =>
    let o := m w in
    match res o with
    | Blocked => o
    | r =>
        let o' := f (post o) in
        mkOut (match res o' with
               | Ok _ => r
               | Raise e => Raise e
               | Blocked => Blocked
               end)
              (post o') (emitted o ++ emitted o')
    end.

Definition emit (ev : event) : M unit := fun w => mkOut (Ok tt) w [ev].

Definition get_world : M world := fun w => mkOut (Ok w) w [].

Definition put_fs (f : gmap path bytes) : M unit :=
  fun w => mkOut (Ok tt) (mkWorld f (metadata w) (free_slots w)) [].

Definition put_metadata (m : ledger) : M unit :=
  fun w => mkOut (Ok tt) (mkWorld (fs w) m (free_slots w)) [].

Definition put_free_slots (n : nat) : M unit :=
  fun w => mkOut (Ok tt) (mkWorld (fs w) (metadata w) n) [].

(** An outside call that either raises or returns. *)
Definition lift {A} (r : exn + A) : M A :=
  match r with
  | inl e => raise e
  | inr a => ret a
  end.

(** An outside call that returns nothing and may raise. *)
Definition may_raise (o : option exn) : M unit :=
  match o with
  | Some e => raise e
  | None => ret tt
  end.

Declare Scope eff_scope.
Delimit Scope eff_scope with eff.
Notation "x <- c ;; k" := (bind c (fun x => k))
  (at level 100, c at next level, right associativity) : eff_scope.
Notation "c ;; k" := (bind c (fun _ => k))
  (at level 100, right associativity) : eff_scope.

(** [await semaphore.acquire()] *)
Definition acquire : M unit :=
  fun w =>
    match free_slots w with
    | O => mkOut Blocked w []
    | S n => mkOut (Ok tt) (mkWorld (fs w) (metadata w) n) []
    end.

(** [semaphore.release()] *)
Definition release : M unit :=
  fun w => mkOut (Ok tt) (mkWorld (fs w) (metadata w) (S (free_slots w))) [].

(** [async with semaphore: body] *)
Definition with_semaphore {A} (body : M A) : M A :=
  bind acquire (fun _ => try_finally body release).

(** [asyncio.gather] over the tasks, in the schedule that runs the tasks one
    after the other: every task runs, whatever the others did; the first
    exception, if any, is what the caller of [gather] gets. *)
Definition gather_result {A} (r : result A) (rs : result (list A))
    : result (list A) :=
  match r, rs with
  | Raise e, _ => Raise e
  | _, Raise e => Raise e
  | Blocked, _ => Blocked
  | _, Blocked => Blocked
  | Ok a, Ok l => Ok (a :: l)
  end.

Fixpoint gather {A} (tasks : list (M A)) : M (list A) :=
  match tasks with
  | [] => ret []
  | t :: ts =>
      fun w =>
        let o := t w in
        let o' := gather ts (post o) in
        mkOut (gather_result (res o) (res o')) (post o')
              (emitted o ++ emitted o')
  end.

(** A computation that never waits, leaves a part of the world alone
    (the relation [R] holds between the world before and after) and only
    emits events of one kind [Q]. *)
Definition keeps (R : world -> world -> Prop) (Q : event -> Prop)
    {A} (m : M A) : Prop :=
  forall w, R w (post (m w)) /\ Forall Q (emitted (m w))
            /\ res (m w) <> Blocked.

End Eff.

Import Eff.
Local Open Scope eff_scope.

(** ** Conditional fetch validator *)

(** The two header look-ups of [head_info], each with its lower-case
    second try. *)
Definition read_validators (h : headers) : validators :=
  {| v_last_modified :=
       py_or (headers_get h "Last-Modified") (headers_get h "last-modified");
     v_etag := py_or (headers_get h "ETag") (headers_get h "etag") |}.

Definition no_validators : validators :=
  {| v_last_modified := None; v_etag := None |}.

(** [session.head(url)] *)
Definition session_head (E : env) (url : string) : M headers :=
  emit (EvHead url) ;; lift (head_response E).

(** The fallback request [session.get(url, params=$limit 1)]. *)
Definition session_get_limit1 (E : env) (url : string) : M headers :=
  emit (EvProbeGet url) ;; lift (probe_get_response E).

Definition head_info (E : env) (url : string) : M validators :=
  try_except
    (h <- session_head E url ;; ret (read_validators h))
    (fun _ =>
       try_except
         (h <- session_get_limit1 E url ;; ret (read_validators h))
         (fun _ => emit (LogProbeFailed url) ;; ret no_validators)).

(** ** Download pipeline *)

Definition path_exists (p : path) : M bool :=
  w <- get_world ;; ret (bool_decide (is_Some (fs w !! p))).

(** [p.open("wb")]: the file is created, or cut to length zero. *)
Definition open_wb (E : env) (p : path) : M unit :=
  may_raise (open_error E) ;;
  w <- get_world ;; put_fs (<[p := []]> (fs w)).

(** [f.write(chunk)] *)
Definition file_write (p : path) (chunk : bytes) : M unit :=
  w <- get_world ;;
  put_fs (<[p := default [] (fs w !! p) ++ chunk]> (fs w)).

(** The streaming loop: empty chunks are skipped. *)
Fixpoint write_chunks (p : path) (chunks : list bytes) : M unit :=
  match chunks with
  | [] => ret tt
  | c :: cs =>
      (if nonempty c then file_write p c else ret tt) ;;
      write_chunks p cs
  end.

(** [src.replace(dst)]: one rename; replacing a file by itself changes
    nothing. *)
Definition path_replace (E : env) (src dst : path) : M unit :=
  may_raise (replace_error E) ;;
  w <- get_world ;;
  match fs w !! src with
  | None => raise FileNotFoundError
  | Some c => put_fs (<[dst := c]> (delete src (fs w)))
  end.

(** [p.unlink()] *)
Definition path_unlink (E : env) (p : path) : M unit :=
  may_raise (unlink_error E) ;;
  w <- get_world ;; put_fs (delete p (fs w)).

Definition download_csv (E : env) (url : string) (dest_path : path)
    : M unit :=
  may_raise (mkdir_error E) ;;
  tmp <- lift (with_suffix dest_path ".tmp") ;;
  try_finally
    (emit (EvBodyGet url) ;;
     match body_response E with
     | BodyRequestFails e => raise e
     | BodyResponse status_ok chunks broken =>
         (if status_ok then ret tt else raise ResponseError) ;;
         open_wb E tmp ;;
         write_chunks tmp chunks ;;
         may_raise broken
     end ;;
     path_replace E tmp dest_path)
    (present <- path_exists tmp ;;
     if present
     then try_except (path_unlink E tmp) (fun _ => ret tt)
     else ret tt).

(** [pd.read_csv(p, ...)] with the given decoder. *)
Definition read_csv (parse_csv : bytes -> exn + dataframe) (p : path)
    : M dataframe :=
  w <- get_world ;;
  match fs w !! p with
  | None => raise FileNotFoundError
  | Some b => lift (parse_csv b)
  end.

(** [df.to_csv(p, index=False)] *)
Definition to_csv (E : env) (df : dataframe) (p : path) : M unit :=
  let '(written, err) := pd_to_csv E df in
  w <- get_world ;;
  match written with
  | Some b => put_fs (<[p := b]> (fs w))
  | None => ret tt
  end ;;
  may_raise err.

Definition headers_to_snakecase_df (df : dataframe) : dataframe :=
  {| columns := map (fun col => to_snake_case (Some col)) (columns df);
     rows := rows df |}.

(** ** Sync orchestrator *)

Definition OUTPUT_DIR : path := parse "data".
Definition METADATA_FILE : path := parse "metadata.json".
Definition CONCURRENT_DOWNLOADS : nat := 8.

Definition qmark : ascii := "?"%char.

(** [s.split("?")[0]] *)
Definition before_qmark (s : string) : string :=
  string_of_list_ascii (hd [] (split_on qmark (list_ascii_of_string s))).

(** [dist.get("filename") or Path(url).name.split("?")[0]] *)
Definition dest_filename (d : dist) : string :=
  if truthy (d_filename d)
  then default EmptyString (d_filename d)
  else before_qmark (name (parse (d_url d))).

Definition dest_path_of (dataset_id : string) (d : dist) : path :=
  joinpath (joinpath OUTPUT_DIR dataset_id) (dest_filename d).

Definition ledger_key (dataset_id url : string) : string :=
  dataset_id +:+ "::" +:+ url.

(** The first test of [process_distribution]:
    [remote_etag and prev_etag and remote_etag == prev_etag]. *)
Definition etag_unchanged (info : validators) (prev : option entry) : bool :=
  let prev_etag := prev ≫= e_etag in
  truthy (v_etag info) && truthy prev_etag && py_eq (v_etag info) prev_etag.

(** The second test:
    [remote_lm and prev_lm and remote_lm == prev_lm]. *)
Definition last_modified_unchanged (info : validators) (prev : option entry)
    : bool :=
  let prev_lm := prev ≫= e_last_modified in
  truthy (v_last_modified info) && truthy prev_lm
  && py_eq (v_last_modified info) prev_lm.

(** The entry [process_distribution] records after a successful run. *)
Definition new_entry (E : env) (url filename : string) (info : validators)
    (df : dataframe) : entry :=
  {| e_url := url;
     e_filename := filename;
     e_last_modified := v_last_modified info;
     e_etag := v_etag info;
     e_downloaded_at := utcnow_isoformat E +:+ "Z";
     e_rows := length (rows df);
     e_cols := length (columns df) |}.

(** The [try] block of [process_distribution]: download, re-read,
    normalize the headers, write back, record. *)
Definition fetch_steps (E : env) (url filename : string) (dest_path : path)
    (key : string) (info : validators) : M unit :=
  emit (LogDownloading url dest_path) ;;
  download_csv E url dest_path ;;
  emit (LogDownloaded dest_path) ;;
  df <- try_except
          (read_csv (pd_read_csv E) dest_path)
          (fun _ =>
             emit (LogPandasRetry dest_path) ;;
             read_csv (pd_read_csv_utf8 E) dest_path) ;;
  let df := headers_to_snakecase_df df in
  to_csv E df dest_path ;;
  emit (LogProcessed (name dest_path) (length (rows df))
                     (length (columns df))) ;;
  w <- get_world ;;
  put_metadata (<[key := new_entry E url filename info df]> (metadata w)).

Definition process_distribution (E : env) (dataset_id : string) (d : dist)
    : M unit :=
  let url := d_url d in
  let filename := dest_filename d in
  let dest_path := dest_path_of dataset_id d in
  with_semaphore
    (emit (LogChecking url) ;;
     info <- head_info E url ;;
     let key := ledger_key dataset_id url in
     w <- get_world ;;
     let prev := metadata w !! key in
     if etag_unchanged info prev
     then emit (LogSkipEtag filename)
     else if last_modified_unchanged info prev
     then emit (LogSkipLastModified filename)
     else
       try_except
         (fetch_steps E url filename dest_path key info)
         (fun _ => emit (LogFailed url))).

(** ** Freshness ledger on disk *)

(** [str.encode("utf-8")] and [bytes.decode("utf-8")] on the code points
    below U+0100: one byte below U+0080, otherwise a lead byte C2 or C3
    and one continuation byte. *)
Definition utf8_encode_char (c : ascii) : bytes :=
  let n := Chars.code c in
  if (n <? 128)%N then [c]
  else [ascii_of_N (192 + n / 64); ascii_of_N (128 + n mod 64)].

Definition utf8_encode (s : string) : bytes :=
  flat_map utf8_encode_char (list_ascii_of_string s).

Fixpoint utf8_decode_text (b : bytes) : exn + text :=
  match b with
  | [] => inr []
  | c :: b' =>
      if (Chars.code c <? 128)%N then
        match utf8_decode_text b' with
        | inr t => inr (c :: t)
        | inl e => inl e
        end
      else
        match b' with
        | d :: b'' =>
            if Chars.in_range 194 195 c && Chars.in_range 128 191 d then
              match utf8_decode_text b'' with
              | inr t =>
                  inr (ascii_of_N ((Chars.code c - 192) * 64
                                   + (Chars.code d - 128)) :: t)
              | inl e => inl e
              end
            else inl UnicodeDecodeError
        | [] => inl UnicodeDecodeError
        end
  end.

Definition utf8_decode (b : bytes) : exn + string :=
  match utf8_decode_text b with
  | inr t => inr (string_of_list_ascii t)
  | inl e => inl e
  end.

(** What [main_async] meets outside the per-distribution work: the json
    module and the two accesses to the ledger file. *)
Record host : Type := mkHost {
  json_dumps : ledger -> string;
  json_loads : string -> exn + ledger;
  ensure_dirs_error : option exn;
  metadata_read_error : option exn;
  metadata_write_error : option exn
}.

Definition ensure_dirs (H : host) : M unit :=
  may_raise (ensure_dirs_error H).

Definition load_metadata (H : host) : M ledger :=
  w <- get_world ;;
  match fs w !! METADATA_FILE with
  | Some b =>
      try_except
        (may_raise (metadata_read_error H) ;;
         s <- lift (utf8_decode b) ;;
         lift (json_loads H s))
        (fun _ => emit LogMetadataUnreadable ;; ret ∅)
  | None => ret ∅
  end.

Definition save_metadata (H : host) (meta : ledger) : M unit :=
  may_raise (metadata_write_error H) ;;
  w <- get_world ;;
  put_fs (<[METADATA_FILE := utf8_encode (json_dumps H meta)]> (fs w)).

(** ** Batch runner *)

(** One discovered distribution with the surroundings its run meets. *)
Record job : Type := mkJob {
  j_env : env;
  j_dataset : string;
  j_dist : dist
}.

Definition task_of (j : job) : M unit :=
  process_distribution (j_env j) (j_dataset j) (j_dist j).

Definition job_key (j : job) : string :=
  ledger_key (j_dataset j) (d_url (j_dist j)).

(** The outcome of the listing request and of discovery, which are
    outside this development. *)
Inductive listing : Type :=
  | ListingFails (e : exn)
  | ListingUnexpected
  | Listing (jobs : list job).

(** [if tasks: await asyncio.gather(...) else: log] *)
Definition run_tasks (jobs : list job) : M unit :=
  match jobs with
  | [] => emit LogNoDistributions
  | _ => gather (map task_of jobs) ;; ret tt
  end.

Definition main_async (H : host) (l : listing) : M unit :=
  ensure_dirs H ;;
  m <- load_metadata H ;;
  put_metadata m ;;
  match l with
  | ListingFails _ => emit LogListingFailed
  | ListingUnexpected => emit LogUnexpectedListing
  | Listing jobs =>
      put_free_slots CONCURRENT_DOWNLOADS ;;
      run_tasks jobs ;;
      w <- get_world ;;
      save_metadata H (metadata w) ;;
      emit LogRunComplete
  end.

(** ** Orchestrator states, read off the events of a run *)

Definition is_downloading (ev : event) : bool :=
  match ev with LogDownloading _ _ => true | _ => false end.

Definition is_body_get (ev : event) : bool :=
  match ev with EvBodyGet _ => true | _ => false end.

Definition is_skip (ev : event) : bool :=
  match ev with
  | LogSkipEtag _ | LogSkipLastModified _ => true
  | _ => false
  end.

Definition is_processed (ev : event) : bool :=
  match ev with LogProcessed _ _ _ => true | _ => false end.

Definition is_failed (ev : event) : bool :=
  match ev with LogFailed _ => true | _ => false end.



Definition reaches_fetching (evs : list event) : bool :=
  existsb is_downloading evs.

Definition reaches_skipped (evs : list event) : bool :=
  existsb is_skip evs.

Definition reaches_processed (evs : list event) : bool :=
  existsb is_processed evs.

Definition reaches_failed (evs : list event) : bool :=
  existsb is_failed evs.

Definition count_events (p : event -> bool) (evs : list event) : nat :=
  length (List.filter p evs).

(** A computation that either returns after writing one entry under
    [key], or raises with the ledger as it was. *)
Definition records_on_success (key : string) (m : M unit) : Prop :=
  forall w,
    (res (m w) = Ok tt
     /\ exists e, metadata (post (m w)) = <[key := e]> (metadata w))
    \/ (exists x, res (m w) = Raise x)
       /\ metadata (post (m w)) = metadata w.

(** ** Sample surroundings, used to run the definitions *)

Module Sample.

Local Open Scope string_scope.

Definition frame : dataframe :=
  {| columns := ["Facility ID"; "overallRating"];
     rows := [["10001"; "4"]; ["10005"; "3"]] |}.

Definition body : list bytes :=
  [list_ascii_of_string "Facility ID,overallRating";
   [];
   list_ascii_of_string "10001,4"].

(** Surroundings in which the disk and pandas work; the network answers
    are given. *)
Definition surroundings (head probe_get : exn + headers)
    (answer : body_outcome) : env :=
  {| head_response := head;
     probe_get_response := probe_get;
     body_response := answer;
     mkdir_error := None;
     open_error := None;
     replace_error := None;
     unlink_error := None;
     pd_read_csv := fun _ => inr frame;
     pd_read_csv_utf8 := fun _ => inl TypeError;
     pd_to_csv := fun df => (Some (list_ascii_of_string "csv"), None);
     utcnow_isoformat := "2024-05-01T10:00:00" |}.

Definition url_a : string := "https://data.example/files/a.csv?rev=3".

Definition dist_a : dist :=
  {| d_url := url_a; d_filename := None;
     d_last_modified := None; d_etag := None |}.

Definition dist_tmp : dist :=
  {| d_url := url_a; d_filename := Some "a.tmp";
     d_last_modified := None; d_etag := None |}.

Definition stored : entry :=
  {| e_url := url_a; e_filename := "a.csv";
     e_last_modified := Some "Mon, 01 Jan 2024 00:00:00 GMT";
     e_etag := Some "v1";
     e_downloaded_at := "2024-01-02T00:00:00Z";
     e_rows := 2; e_cols := 2 |}.

Definition headers_of (etag lm : string) : headers :=
  [("Content-Type", "text/csv"); ("ETag", etag); ("Last-Modified", lm)].

(** A world with eight free slots, the given ledger and no files. *)
Definition world_of (m : ledger) : world :=
  {| fs := ∅; metadata := m; free_slots := CONCURRENT_DOWNLOADS |}.

Definition ledger_a : ledger := {[ ledger_key "ds1" url_a := stored ]}.

(** A json module that knows the empty ledger only, and a disk that
    works. *)
Definition host_empty : host :=
  {| json_dumps := fun _ => "{}";
     json_loads := fun s =>
       if bool_decide (s = "{}") then inr ∅ else inl JSONDecodeError;
     ensure_dirs_error := None;
     metadata_read_error := None;
     metadata_write_error := None |}.

End Sample.

(** ** Catalog items *)

Module Json.

#[local] Unset Elimination Schemes.

(** A value as [json.loads] builds it.  Of a float the program only ever
    asks whether it is zero. *)
Inductive json : Type :=
  | JNull
  | JBool (b : bool)
  | JInt (z : Z)
  | JFloat (is_zero : bool)
  | JStr (s : string)
  | JList (l : list json)
  | JDict (d : list (string * json)).

#[local] Set Elimination Schemes.

(** A dict: keys in insertion order, each key once. *)
Definition dict := list (string * json).

Fixpoint assoc (d : dict) (k : string) : option json :=
  match d with
  | [] => None
  | (k', v) :: d' => if bool_decide (k' = k) then Some v else assoc d' k
  end.

(** [d.get(k)] *)
Definition get (d : dict) (k : string) : json := default JNull (assoc d k).

(** The truth value of [v] in [if v], [not v] and [v or w]. *)
Definition truthy_json (v : json) : bool :=
  match v with
  | JNull => false
  | JBool b => b
  | JInt z => negb (z =? 0)%Z
  | JFloat is_zero => negb is_zero
  | JStr s => negb (bool_decide (s = EmptyString))
  | JList l => negb (bool_decide (l = []))
  | JDict d => negb (bool_decide (d = []))
  end.

(** [a or b] *)
Definition jor (a b : json) : json := if truthy_json a then a else b.

(** What the catalog code raises on a value of the wrong kind:
    [AttributeError] for a missing method ([get], [lower]), [TypeError]
    for a [for] loop over a number or a boolean. *)
Inductive pyerr : Type :=
  | AttributeError
  | NotIterableError.

(** [isinstance(e, str)] over the elements of a list. *)
Definition strings_of (l : list json) : list string :=
  flat_map (fun e => match e with JStr s => [s] | _ => [] end) l.

(** [p] is a prefix of [s]. *)
Fixpoint starts_with (p s : text) : bool :=
  match p, s with
  | [], _ => true
  | _ :: _, [] => false
  | c :: p', d :: s' => Ascii.eqb c d && starts_with p' s'
  end.

(** [p in s] on strings. *)
Fixpoint contains (p s : text) : bool :=
  match s with
  | [] => starts_with p []
  | _ :: s' => starts_with p s || contains p s'
  end.

(** [s.endswith(p)] *)
Definition ends_with (p s : text) : bool := starts_with (rev p) (rev s).

(** ["hospital" in t.lower()] *)
Definition mentions_hospital (t : string) : bool :=
  contains (list_ascii_of_string "hospital")
           (list_ascii_of_string (lower_string t)).

(** [url.lower().endswith(".csv") or ".csv?" in url.lower()] *)
Definition is_csv_url (url : string) : bool :=
  let u := list_ascii_of_string (lower_string url) in
  ends_with (list_ascii_of_string ".csv") u
  || contains (list_ascii_of_string ".csv?") u.

End Json.

Import Json.

(** ** Theme filter and distribution discovery *)

Module Discovery.

Local Open Scope string_scope.

Definition THEME_KEYS : list string :=
  ["theme"; "themes"; "topic"; "topics"; "tags"; "keywords"].

Definition TEXT_KEYS : list string :=
  ["title"; "name"; "description"; "abstract"].

Definition DISTRIBUTION_KEYS : list string :=
  ["distributions"; "assets"; "resources"; "files"; "distribution"].

Definition TOP_LEVEL_KEYS : list string :=
  ["downloadURL"; "url"; "link"; "accessURL"; "landingPage"].

(** One turn of the loop of [extract_possible_theme_fields]: the value
    under [k], or the one under [k] in a [metadata] dict when the first
    is false; then the strings it gives. *)
Definition theme_values_at (d : dict) (k : string) : list string :=
  let v := get d k in
  let v :=
    if truthy_json v then v
    else match assoc d "metadata" with
         | Some (JDict m) => get m k
         | _ => v
         end in
  if truthy_json v then
    match v with
    | JStr s => [s]
    | JList l => strings_of l
    | JDict m => strings_of (map snd m)
    | _ => []
    end
  else [].

(** An item that is not a dict has no [get]. *)
Definition extract_possible_theme_fields (item : json)
    : pyerr + list string :=
  match item with
  | JDict d => inr (flat_map (theme_values_at d) THEME_KEYS)
  | _ => inl AttributeError
  end.

(** [(item.get("metadata", {}) or {}).get(k)] *)
Definition metadata_get (d : dict) (k : string) : pyerr + json :=
  let md := default (JDict []) (assoc d "metadata") in
  let md := jor md (JDict []) in
  match md with
  | JDict m => inr (get m k)
  | _ => inl AttributeError
  end.

(** [item.get(k) or (item.get("metadata", {}) or {}).get(k)]: the right
    side is evaluated only when the left one is false. *)
Definition get_or_metadata (d : dict) (k : string) : pyerr + json :=
  let v := get d k in
  if truthy_json v then inr v else metadata_get d k.

(** The second loop of [matches_hospitals_theme], with its early
    [return True]. *)
Fixpoint hospital_in_fields (d : dict) (keys : list string) : pyerr + bool :=
  match keys with
  | [] => inr false
  | k :: ks =>
      match get_or_metadata d k with
      | inl e => inl e
      | inr (JStr s) =>
          if mentions_hospital s then inr true else hospital_in_fields d ks
      | inr _ => hospital_in_fields d ks
      end
  end.

Definition matches_hospitals_theme (item : json) : pyerr + bool :=
  match extract_possible_theme_fields item with
  | inl e => inl e
  | inr themes =>
      if existsb mentions_hospital themes then inr true
      else match item with
           | JDict d => hospital_in_fields d TEXT_KEYS
           | _ => inl AttributeError
           end
  end.

(** The dict [find_csv_distributions] appends; the three optional fields
    hold whatever the catalog had there. *)
Record descriptor : Type := mkDescriptor {
  r_url : string;
  r_filename : json;
  r_last_modified : json;
  r_etag : json
}.

(** [for entry in maybe], after a dict was wrapped in a list: a list
    gives its elements, a string its characters, a number or a boolean
    cannot be iterated. *)
Definition entries_of (maybe : json) : pyerr + list json :=
  match maybe with
  | JDict _ => inr [maybe]
  | JList l => inr l
  | JStr s =>
      inr (map (fun c => JStr (String c EmptyString))
               (list_ascii_of_string s))
  | _ => inl NotIterableError
  end.

(** The body of the inner loop for an entry that is a dict. *)
Definition descriptor_of (entry : dict) : pyerr + option descriptor :=
  let url := jor (get entry "downloadURL")
               (jor (get entry "url")
                  (jor (get entry "accessURL") (get entry "endpoint"))) in
  let fname := jor (get entry "filename") (jor (get entry "title") JNull) in
  let lm := jor (get entry "lastModified")
              (jor (get entry "modified")
                 (jor (get entry "last_updated") (get entry "updated"))) in
  let etag := get entry "etag" in
  if truthy_json url then
    match url with
    | JStr u =>
        if is_csv_url u
        then inr (Some {| r_url := u; r_filename := fname;
                          r_last_modified := lm; r_etag := etag |})
        else inr None
    | _ => inl AttributeError
    end
  else inr None.

Fixpoint collect_entries (entries : list json) : pyerr + list descriptor :=
  match entries with
  | [] => inr []
  | JDict entry :: rest =>
      match descriptor_of entry with
      | inl e => inl e
      | inr found =>
          match collect_entries rest with
          | inl e => inl e
          | inr more =>
              inr (match found with Some r => r :: more | None => more end)
          end
      end
  | _ :: rest => collect_entries rest
  end.

(** The outer loop over the five places where distributions are kept. *)
Fixpoint collect_keys (d : dict) (keys : list string)
    : pyerr + list descriptor :=
  match keys with
  | [] => inr []
  | key :: ks =>
      match get_or_metadata d key with
      | inl e => inl e
      | inr maybe =>
          if truthy_json maybe then
            match entries_of maybe with
            | inl e => inl e
            | inr entries =>
                match collect_entries entries with
                | inl e => inl e
                | inr found =>
                    match collect_keys d ks with
                    | inl e => inl e
                    | inr more => inr (found ++ more)%list
                    end
                end
            end
          else collect_keys d ks
      end
  end.

(** The fallback over the item's own link fields. *)
Definition top_level_descriptors (d : dict) : list descriptor :=
  flat_map
    (fun candidate =>
       match get d candidate with
       | JStr u =>
           if is_csv_url u
           then [{| r_url := u; r_filename := JNull;
                    r_last_modified := JNull; r_etag := JNull |}]
           else []
       | _ => []
       end)
    TOP_LEVEL_KEYS.

Definition find_csv_distributions (item : json) : pyerr + list descriptor :=
  match item with
  | JDict d =>
      match collect_keys d DISTRIBUTION_KEYS with
      | inl e => inl e
      | inr [] => inr (top_level_descriptors d)
      | inr found => inr found
      end
  | _ => inl AttributeError
  end.

(** The listing as [main_async] accepts it: a list, or a dict that keeps
    the list under [data], [items] or [results]; [None] is the return
    after "Unexpected listing format". *)
Definition listing_items (items : json) : option (list json) :=
  match items with
  | JList l => Some l
  | JDict d =>
      match jor (get d "data")
              (jor (get d "items") (jor (get d "results") (JList []))) with
      | JList l => Some l
      | _ => None
      end
  | _ => None
  end.

(** The filter loop of [main_async]: an item whose test raises is
    skipped. *)
Definition matching_items (items : list json) : list json :=
  List.filter
    (fun it =>
       match matches_hospitals_theme it with
       | inr true => true
       | _ => false
       end)
    items.

(** The value [main_async] takes for the dataset id, before [str]. *)
Definition dataset_id_value (ds : dict) : json :=
  jor (get ds "id")
    (jor (get ds "dataset_id")
       (jor (get ds "identifier")
          (jor (get ds "name")
             (jor (get ds "title") (JStr "unknown_dataset"))))).

Definition hyphen : ascii := "-"%char.

(** The class [[\w\-\.]]. *)
Definition allowed_in_id (c : ascii) : bool :=
  Chars.is_word c || Ascii.eqb c hyphen || Ascii.eqb c dot.

(** [re.sub(r"[^\w\-\.]", "_", s)] *)
Definition sanitize_id (s : string) : string :=
  string_of_list_ascii
    (map (fun c => if allowed_in_id c then c else Chars.underscore)
         (list_ascii_of_string s)).

(** [str(v)]: a string is itself; how the other values print is left to
    [str_other]. *)
Definition py_str (str_other : json -> string) (v : json) : string :=
  match v with
  | JStr s => s
  | _ => str_other v
  end.

Definition dataset_id (str_other : json -> string) (ds : dict) : string :=
  sanitize_id (py_str str_other (dataset_id_value ds)).

(** The loop of [main_async] that builds the tasks: one pair of dataset
    id and descriptor for every distribution of every matching item. *)
Fixpoint tasks_of (str_other : json -> string) (matching : list json)
    : pyerr + list (string * descriptor) :=
  match matching with
  | [] => inr []
  | JDict ds :: rest =>
      match find_csv_distributions (JDict ds) with
      | inl e => inl e
      | inr dists =>
          match tasks_of str_other rest with
          | inl e => inl e
          | inr more =>
              inr (map (fun r => (dataset_id str_other ds, r)) dists ++ more)%list
          end
      end
  | _ :: _ => inl AttributeError
  end.

(** From the listing to the tasks. *)
Definition discover (str_other : json -> string) (items : json)
    : option (pyerr + list (string * descriptor)) :=
  match listing_items items with
  | None => None
  | Some l => Some (tasks_of str_other (matching_items l))
  end.

(** The typed descriptor [process_distribution] works on, when the
    filename is a string or false. *)
Definition optional_string (v : json) : option string :=
  match v with
  | JStr s => Some s
  | _ => None
  end.

Definition dist_of (r : descriptor) : dist :=
  {| d_url := r_url r;
     d_filename := optional_string (r_filename r);
     d_last_modified := optional_string (r_last_modified r);
     d_etag := optional_string (r_etag r) |}.

(** [process_distribution] on a descriptor as discovery built it: a
    filename that is true and not a string cannot be joined to the
    dataset directory, and that is before the [try]. *)
Definition process_descriptor (E : env) (dataset_id : string)
    (r : descriptor) : M unit :=
  match r_filename r with
  | JStr _ => process_distribution E dataset_id (dist_of r)
  | v =>
      if truthy_json v then raise TypeError
      else process_distribution E dataset_id (dist_of r)
  end.

End Discovery.

Import Discovery.

(** ** Sample catalog items *)

Module SampleCatalog.

Local Open Scope string_scope.

Definition csv_entry : json :=
  JDict [("downloadURL", JStr "https://data.example/files/Hosp.CSV");
         ("title", JStr "General Information");
         ("modified", JStr "2024-01-02")].

Definition pdf_entry : json :=
  JDict [("downloadURL", JStr "https://data.example/files/notes.pdf")].

(** A dataset of the Hospitals theme with two distributions. *)
Definition hospital_item : json :=
  JDict [("identifier", JStr "xubh/q36u");
         ("title", JStr "General Information");
         ("theme", JList [JStr "Hospitals"]);
         ("distribution", JList [csv_entry; pdf_entry])].

(** A dataset of another theme. *)
Definition other_item : json :=
  JDict [("identifier", JStr "abcd-1234");
         ("title", JStr "Dialysis facilities");
         ("theme", JList [JStr "Dialysis"])].

(** An item whose [metadata] is a string. *)
Definition odd_item : json :=
  JDict [("identifier", JStr "odd"); ("metadata", JStr "n/a")].

(** An entry whose file name is a number. *)
Definition numbered : descriptor :=
  {| r_url := "https://data.example/files/a.csv";
     r_filename := JInt 7;
     r_last_modified := JNull;
     r_etag := JNull |}.

Definition str_other (v : json) : string := "?".

End SampleCatalog.

(** * Properties *)

(** ** The definitions at work *)

Example with_suffix_csv :
  with_suffix ["data"; "ds"; "a.csv"]%string ".tmp"
  = inr ["data"; "ds"; "a.tmp"]%string.
Proof. reflexivity. Qed.

Example with_suffix_plain :
  with_suffix ["data"; "ds"; "General Information"]%string ".tmp"
  = inr ["data"; "ds"; "General Information.tmp"]%string.
Proof. reflexivity. Qed.

Example parse_url_name :
  name (parse "https://h.example/files/a.csv?x=1") = "a.csv?x=1"%string.
Proof. reflexivity. Qed.

Example snake_facility :
  to_snake_case (Some "Facility ID"%string) = "facility_id"%string.
Proof. reflexivity. Qed.

Example snake_overall :
  to_snake_case (Some "overallRating"%string) = "overall_rating"%string.
Proof. reflexivity. Qed.

(** ** Characters: facts checked on all 256 code points *)

Module CharFacts.
Import Chars.

Ltac all_chars c :=
  destruct c as [[] [] [] [] [] [] [] []]; vm_compute;
  try reflexivity; try discriminate; try congruence; auto.

Lemma word_not_space c : is_word c = true -> is_space c = false.
Proof. all_chars c. Qed.

Lemma space_is_space : is_space space = true.
Proof. reflexivity. Qed.

Lemma lower_word c : is_word c = true -> is_word (lower c) = true.
Proof. all_chars c. Qed.

Lemma lower_alnum c : is_alnum c = true -> is_alnum (lower c) = true.
Proof. all_chars c. Qed.

Lemma lower_lower c : lower (lower c) = lower c.
Proof. all_chars c. Qed.

Lemma lower_fixed_not_AZ c : lower c = c -> is_upper_AZ c = false.
Proof. all_chars c. Qed.

Lemma alnum_not_us c : is_alnum c = true -> Ascii.eqb c underscore = false.
Proof. all_chars c. Qed.

Lemma word_cases c :
  is_word c = true -> is_alnum c = true \/ c = underscore.
Proof.
  unfold is_word. intros H. apply orb_true_iff in H as [H | H]; auto.
  right. now apply Ascii.eqb_eq.
Qed.

Lemma alnum_word c : is_alnum c = true -> is_word c = true.
Proof. unfold is_word. intros ->. reflexivity. Qed.

Lemma us_or_space_word c :
  is_word c = true -> is_us_or_space c = Ascii.eqb c underscore.
Proof.
  intros H. unfold is_us_or_space. rewrite (word_not_space c H).
  apply orb_false_r.
Qed.

End CharFacts.

(** ** Header normalizer: how characters travel through the steps *)

Module NormalizerFacts.
Import Chars CharFacts.

Lemma sub_special_in (s : text) c :
  In c (sub_special s) ->
  (In c s /\ is_word c = true) \/ is_space c = true.
Proof.
  unfold sub_special. rewrite in_map_iff. intros (d & Hd & Hin).
  destruct (is_word d) eqn:Hw; simpl in Hd.
  - subst. auto.
  - destruct (is_space d) eqn:Hs; subst; auto.
Qed.


Lemma sub_special_id (s : text) :
  Forall (fun c => is_word c = true) s -> sub_special s = s.
Proof.
  unfold sub_special.
  induction 1 as [| c s Hc _ IH]; simpl; [reflexivity |].
  rewrite Hc. simpl. now f_equal.
Qed.

Lemma sub_runs_from_in p r b (s : text) c :
  In c (sub_runs_from p r b s) -> c = r \/ (In c s /\ p c = false).
Proof.
  revert b. induction s as [| d s IH]; simpl; intros b; [tauto |].
  destruct (p d) eqn:Hp.
  - destruct b; simpl.
    + intros H. apply IH in H. tauto.
    + intros [H | H]; [auto |]. apply IH in H. tauto.
  - simpl. intros [H | H].
    + subst. auto.
    + apply IH in H. tauto.
Qed.


Lemma sub_runs_from_id p r b (s : text) :
  Forall (fun c => p c = false) s -> sub_runs_from p r b s = s.
Proof.
  intros H. revert b. induction H as [| c s Hc _ IH]; simpl; intros b.
  - reflexivity.
  - rewrite Hc. now rewrite IH.
Qed.

Lemma sub_runs_from_nonempty p r (s : text) :
  s <> [] -> sub_runs_from p r false s <> [].
Proof.
  destruct s as [| c s]; [congruence |]. intros _. simpl.
  destruct (p c); discriminate.
Qed.

Lemma sub_runs_from_length p r b (s : text) :
  length (sub_runs_from p r b s) <= length s.
Proof.
  revert b. induction s as [| c s IH]; simpl; intros b; [lia |].
  pose proof (IH true). pose proof (IH false).
  destruct (p c); [destruct b |]; simpl; lia.
Qed.

Lemma lstrip_in (s : text) c : In c (lstrip s) -> In c s.
Proof.
  induction s as [| d s IH]; simpl; [tauto |].
  destruct (is_space d); simpl; tauto.
Qed.



Lemma lstrip_id (s : text) :
  Forall (fun c => is_space c = false) s -> lstrip s = s.
Proof. destruct 1 as [| c s Hc _]; simpl; [| rewrite Hc]; auto. Qed.

Lemma strip_in (s : text) c : In c (strip s) -> In c s.
Proof.
  unfold strip. rewrite <- in_rev. intros H. apply lstrip_in in H.
  rewrite <- in_rev in H. now apply lstrip_in.
Qed.


Lemma strip_id (s : text) :
  Forall (fun c => is_space c = false) s -> strip s = s.
Proof.
  intros H. unfold strip. rewrite (lstrip_id s H).
  rewrite lstrip_id; [apply rev_involutive |].
  apply List.Forall_forall. intros c Hc. rewrite <- in_rev in Hc.
  revert c Hc. now apply List.Forall_forall.
Qed.

Lemma camel_from_in prev (s : text) c :
  In c (camel_from prev s) -> c = space \/ In c s.
Proof.
  revert prev. induction s as [| d s IH]; simpl; intros prev; [tauto |].
  destruct (is_upper_AZ d && _); simpl.
  - intros [H | [H | H]]; auto. apply IH in H. tauto.
  - intros [H | H]; auto. apply IH in H. tauto.
Qed.


Lemma camel_from_id prev (s : text) :
  Forall (fun c => is_upper_AZ c = false) s -> camel_from prev s = s.
Proof.
  intros H. revert prev. induction H as [| c s Hc _ IH]; simpl; intros prev.
  - reflexivity.
  - rewrite Hc. simpl. now rewrite IH.
Qed.

Lemma split_on_in sep (s : text) p c :
  In p (split_on sep s) -> In c p -> In c s /\ c <> sep.
Proof.
  revert p. induction s as [| d s IH]; simpl; intros p.
  - intros [<- | []]. intros [].
  - destruct (Ascii.eqb d sep) eqn:Hd.
    + intros [<- | Hp]; [intros [] |]. intros Hc.
      destruct (IH p Hp Hc). auto.
    + apply Ascii.eqb_neq in Hd.
      destruct (split_on sep s) as [| q qs].
      * intros [<- | []]. intros [<- | []]. auto.
      * intros [<- | Hp].
        -- intros [<- | Hc]; [auto |].
           destruct (IH q (or_introl eq_refl) Hc). auto.
        -- intros Hc. destruct (IH p (or_intror Hp) Hc). auto.
Qed.


Lemma split_on_single sep (s : text) :
  Forall (fun c => c <> sep) s -> split_on sep s = [s].
Proof.
  induction 1 as [| c s Hc _ IH]; simpl; [reflexivity |].
  apply Ascii.eqb_neq in Hc. rewrite Hc, IH. reflexivity.
Qed.

End NormalizerFacts.

Module SnakeFacts.
Import Chars CharFacts NormalizerFacts.

(** A character of a token is a word character of the input. *)
Lemma token_chars (x : text) p c :
  In p (split_on space
          (camel (strip (sub_runs is_space space (sub_special x))))) ->
  In c p -> In c x /\ is_word c = true.
Proof.
  intros Hp Hc. destruct (split_on_in _ _ _ _ Hp Hc) as [Hin Hne].
  apply camel_from_in in Hin as [? | Hin]; [congruence |].
  apply strip_in in Hin.
  apply sub_runs_from_in in Hin as [? | [Hin Hs]]; [congruence |].
  apply sub_special_in in Hin as [? | ?]; [assumption | congruence].
Qed.


Lemma join_in sep (parts : list text) c :
  In c (join sep parts) -> c = sep \/ exists p, In p parts /\ In c p.
Proof.
  induction parts as [| p ps IH]; simpl; [tauto |].
  destruct ps as [| q ps].
  - intros H. right. exists p. auto.
  - rewrite in_app_iff. intros [H | [H | H]].
    + right. exists p. auto.
    + auto.
    + destruct (IH H) as [? | (r & Hr & Hc)]; [auto |].
      right. exists r. split; [now right | assumption].
Qed.


Lemma sanitize_nonempty (p : text) : p <> [] -> sanitize p <> [].
Proof.
  intros H. unfold sanitize, sub_runs.
  pose proof (sub_runs_from_nonempty is_us_or_space underscore p H) as H'.
  destruct (sub_runs_from _ _ _ _); [congruence | discriminate].
Qed.

Lemma sanitize_in (p : text) c :
  In c (sanitize p) ->
  c = underscore \/ exists d, In d p /\ c = lower d.
Proof.
  unfold sanitize, sub_runs. rewrite in_map_iff. intros (d & <- & Hd).
  apply sub_runs_from_in in Hd as [-> | [Hd _]].
  - left. reflexivity.
  - right. eauto.
Qed.

(** Without an underscore or a blank in it, a token is only lowered. *)
Lemma sanitize_alnum (p : text) :
  Forall (fun c => is_alnum c = true) p -> sanitize p = map lower p.
Proof.
  intros H. unfold sanitize, sub_runs. f_equal. apply sub_runs_from_id.
  eapply List.Forall_impl; [| exact H]. simpl. intros c Hc.
  rewrite (us_or_space_word c (alnum_word c Hc)). now apply alnum_not_us.
Qed.

(** Every character of an output is a word character that [lower] leaves
    alone. *)
Lemma snake_chars (x : text) c :
  In c (snake x) -> is_word c = true /\ lower c = c.
Proof.
  unfold snake. intros H.
  apply join_in in H as [-> | (q & Hq & Hc)]; [split; reflexivity |].
  apply in_map_iff in Hq as (p & <- & Hp).
  apply filter_In in Hp as [Hp _].
  apply sanitize_in in Hc as [-> | (d & Hd & ->)]; [split; reflexivity |].
  destruct (token_chars x p d Hp Hd) as [_ Hw].
  split; [now apply lower_word | apply lower_lower].
Qed.

Lemma leading_us_clean (s : text) :
  Forall (fun c => c <> underscore) s -> leading_us s = false.
Proof.
  destruct 1 as [| c s Hc _]; simpl; [reflexivity |].
  now apply Ascii.eqb_neq.
Qed.

Lemma trailing_us_clean (s : text) :
  Forall (fun c => c <> underscore) s -> trailing_us s = false.
Proof.
  intros H. unfold trailing_us. apply leading_us_clean.
  apply List.Forall_forall. intros c Hc. rewrite <- in_rev in Hc.
  revert c Hc. now apply List.Forall_forall.
Qed.

Lemma trailing_us_app (a b : text) :
  b <> [] -> trailing_us (a ++ b) = trailing_us b.
Proof.
  intros Hb. unfold trailing_us. rewrite rev_app_distr.
  destruct (rev b) as [| c r] eqn:Hr; [| reflexivity].
  apply (f_equal (@rev ascii)) in Hr. rewrite rev_involutive in Hr.
  simpl in Hr. congruence.
Qed.

Lemma doubled_us_app (p s : text) :
  Forall (fun c => c <> underscore) p ->
  doubled_us (p ++ s) = doubled_us s.
Proof.
  induction 1 as [| c p Hc _ IH]; [reflexivity |].
  apply Ascii.eqb_neq in Hc. simpl.
  destruct (p ++ s) as [| d t] eqn:Ht.
  - rewrite <- IH. reflexivity.
  - rewrite Hc. simpl. exact IH.
Qed.

Lemma doubled_us_cons_us (s : text) :
  doubled_us (underscore :: s) = leading_us s || doubled_us s.
Proof. destruct s; reflexivity. Qed.

(** Joining non-empty tokens that hold no underscore. *)
Lemma join_clean (parts : list text) :
  Forall (fun p => p <> [] /\ Forall (fun c => c <> underscore) p) parts ->
  leading_us (join underscore parts) = false
  /\ trailing_us (join underscore parts) = false
  /\ doubled_us (join underscore parts) = false.
Proof.
  induction 1 as [| p ps [Hne Hp] Hps IH]; [repeat split |].
  destruct ps as [| q ps].
  - simpl. repeat split.
    + now apply leading_us_clean.
    + now apply trailing_us_clean.
    + rewrite <- (app_nil_r p). now rewrite doubled_us_app.
  - destruct IH as (Hl & Ht & Hd).
    change (join underscore (p :: q :: ps))
      with (p ++ underscore :: join underscore (q :: ps)).
    repeat split.
    + destruct p as [| c p]; [congruence |]. simpl.
      inversion Hp; subst. now apply Ascii.eqb_neq.
    + rewrite trailing_us_app by discriminate.
      change (underscore :: join underscore (q :: ps))
        with ([underscore] ++ join underscore (q :: ps)).
      rewrite trailing_us_app; [exact Ht |].
      inversion Hps as [| ? ? [Hq _] _]; subst.
      destruct q; [congruence |]. destruct ps; discriminate.
    + rewrite doubled_us_app by assumption.
      rewrite doubled_us_cons_us, Hl, Hd. reflexivity.
Qed.

(** The tokens of an underscore-free input, once sanitized. *)
Lemma sanitized_tokens_clean (x : text) :
  ~ In underscore x ->
  Forall (fun p => p <> [] /\ Forall (fun c => c <> underscore) p)
    (map sanitize
       (List.filter nonempty
          (split_on space
             (camel (strip (sub_runs is_space space (sub_special x))))))).
Proof.
  intros Hx. apply List.Forall_forall. intros q Hq.
  apply in_map_iff in Hq as (p & <- & Hp).
  apply filter_In in Hp as [Hp Hne].
  assert (Hal : Forall (fun c => is_alnum c = true) p).
  { apply List.Forall_forall. intros c Hc.
    destruct (token_chars x p c Hp Hc) as [Hin Hw].
    destruct (word_cases c Hw) as [? | ->]; [assumption | contradiction]. }
  split.
  - apply sanitize_nonempty. destruct p; [discriminate | congruence].
  - rewrite (sanitize_alnum p Hal). apply List.Forall_forall.
    intros c Hc. apply in_map_iff in Hc as (d & <- & Hd).
    rewrite List.Forall_forall in Hal. specialize (Hal d Hd).
    apply lower_alnum, alnum_not_us in Hal. now apply Ascii.eqb_neq.
Qed.


End SnakeFacts.

Module IdempotenceFacts.
Import Chars CharFacts NormalizerFacts SnakeFacts.

(** On a text of word characters that [lower] leaves alone, the whole
    normalizer only collapses runs of underscores. *)
Lemma snake_on_output_shape (y : text) :
  (forall c, In c y -> is_word c = true /\ lower c = c) ->
  snake y = sub_runs is_us_or_space underscore y.
Proof.
  intros Hy.
  assert (Hw : Forall (fun c => is_word c = true) y).
  { apply List.Forall_forall. intros c Hc. now apply Hy. }
  assert (Hs : Forall (fun c => is_space c = false) y).
  { apply List.Forall_forall. intros c Hc. apply word_not_space.
    now apply Hy. }
  assert (Hu : Forall (fun c => is_upper_AZ c = false) y).
  { apply List.Forall_forall. intros c Hc. apply lower_fixed_not_AZ.
    now apply Hy. }
  assert (Hn : Forall (fun c => c <> space) y).
  { apply List.Forall_forall. intros c Hc ->.
    rewrite List.Forall_forall in Hs. specialize (Hs _ Hc).
    rewrite space_is_space in Hs. discriminate. }
  unfold snake. rewrite (sub_special_id y Hw).
  unfold sub_runs at 1. rewrite (sub_runs_from_id _ _ _ y Hs).
  rewrite (strip_id y Hs). unfold camel. rewrite (camel_from_id _ y Hu).
  rewrite (split_on_single _ y Hn).
  destruct y as [| c y]; [reflexivity |].
  simpl List.filter. simpl map. simpl join. unfold sanitize.
  rewrite <- (map_id (sub_runs _ _ _)) at 2.
  apply map_ext_in. intros d Hd.
  apply sub_runs_from_in in Hd as [-> | [Hd _]]; [reflexivity |].
  now apply Hy.
Qed.

Lemma collapse_keeps_clean b (y : text) :
  Forall (fun c => is_space c = false) y ->
  doubled_us y = false ->
  (b = true -> leading_us y = false) ->
  sub_runs_from is_us_or_space underscore b y = y.
Proof.
  intros Hs. revert b. induction Hs as [| c y Hc _ IH]; intros b Hd Hb.
  - reflexivity.
  - simpl. unfold is_us_or_space at 1. rewrite Hc, orb_false_r.
    destruct (Ascii.eqb c underscore) eqn:Hcu.
    + apply Ascii.eqb_eq in Hcu. subst c.
      rewrite doubled_us_cons_us in Hd.
      apply orb_false_iff in Hd as [Hl Hd].
      destruct b; [specialize (Hb eq_refl); discriminate |].
      now rewrite IH.
    + rewrite IH; [reflexivity | | discriminate].
      destruct y as [| d y]; [reflexivity |].
      simpl in Hd. rewrite Hcu in Hd. exact Hd.
Qed.

Lemma collapse_shrinks_doubled b (y : text) :
  doubled_us y = true ->
  length (sub_runs_from is_us_or_space underscore b y) < length y.
Proof.
  revert b. induction y as [| c y IH]; intros b Hd; [discriminate |].
  destruct y as [| d y]; [discriminate |].
  simpl in Hd. apply orb_true_iff in Hd as [Hd | Hd].
  - apply andb_true_iff in Hd as [Hc Hd'].
    apply Ascii.eqb_eq in Hc, Hd'. subst c d.
    pose proof (sub_runs_from_length is_us_or_space underscore true y).
    destruct b; simpl; lia.
  - specialize (IH true Hd) as IHt. specialize (IH false Hd) as IHf.
    change (sub_runs_from is_us_or_space underscore b (c :: d :: y))
      with (if is_us_or_space c
            then if b
                 then sub_runs_from is_us_or_space underscore true (d :: y)
                 else underscore ::
                      sub_runs_from is_us_or_space underscore true (d :: y)
            else c ::
                 sub_runs_from is_us_or_space underscore false (d :: y)).
    destruct (is_us_or_space c); [destruct b |]; simpl length in *; lia.
Qed.

Lemma collapse_fixed_iff (y : text) :
  Forall (fun c => is_space c = false) y ->
  sub_runs is_us_or_space underscore y = y <-> doubled_us y = false.
Proof.
  intros Hs. split.
  - intros H. destruct (doubled_us y) eqn:Hd; [| reflexivity].
    pose proof (collapse_shrinks_doubled false y Hd) as Hlt.
    unfold sub_runs in H. rewrite H in Hlt. lia.
  - intros Hd. apply collapse_keeps_clean; [assumption .. | discriminate].
Qed.

Lemma snake_twice (x : text) :
  snake (snake x) = sub_runs is_us_or_space underscore (snake x).
Proof. apply snake_on_output_shape. intros c. apply snake_chars. Qed.

Lemma snake_no_space (x : text) :
  Forall (fun c => is_space c = false) (snake x).
Proof.
  apply List.Forall_forall. intros c Hc. apply word_not_space.
  now apply snake_chars in Hc.
Qed.

Lemma snake_idempotent_iff (x : text) :
  snake (snake x) = snake x <-> doubled_us (snake x) = false.
Proof.
  rewrite snake_twice. apply collapse_fixed_iff, snake_no_space.
Qed.

Lemma snake_clean (x : text) :
  ~ In underscore x ->
  leading_us (snake x) = false
  /\ trailing_us (snake x) = false
  /\ doubled_us (snake x) = false.
Proof. intros Hx. apply join_clean. now apply sanitized_tokens_clean. Qed.

End IdempotenceFacts.

(** ** Header normalizer: the claims *)

Section NormalizerClaims.
Import Chars CharFacts NormalizerFacts SnakeFacts IdempotenceFacts.

Local Open Scope string_scope.







(** For an input without underscores both halves meet: the output is well
    shaped, hence a fixed point. *)
Corollary to_snake_case_idempotent_no_underscore (x : string) :
  ~ In underscore (list_ascii_of_string x) ->
  to_snake_case (Some (to_snake_case (Some x))) = to_snake_case (Some x).
Proof.
  intros Hx. unfold to_snake_case.
  rewrite list_ascii_of_string_of_list_ascii. f_equal.
  apply snake_idempotent_iff. now apply snake_clean.
Qed.

End NormalizerClaims.

(** ** Effects: how the combinators run *)

Module EffFacts.

Lemma bind_ok {A B} (m : M A) (k : A -> M B) w a w1 l1 :
  m w = mkOut (Ok a) w1 l1 ->
  bind m k w = mkOut (res (k a w1)) (post (k a w1)) (l1 ++ emitted (k a w1)).
Proof. intros H. unfold bind. rewrite H. reflexivity. Qed.


Lemma out_eta {A} (o : out A) : mkOut (res o) (post o) (emitted o) = o.
Proof. destruct o. reflexivity. Qed.

Lemma world_eta (w : world) : mkWorld (fs w) (metadata w) (free_slots w) = w.
Proof. destruct w. reflexivity. Qed.

Section Keeps.
Context (R : world -> world -> Prop) (Q : event -> Prop).
Hypothesis R_refl : forall w, R w w.
Hypothesis R_trans : forall a b c, R a b -> R b c -> R a c.

Lemma keeps_ret {A} (a : A) : keeps R Q (ret a).
Proof. intros w. simpl. repeat split; auto; discriminate. Qed.

Lemma keeps_raise {A} e : keeps R Q (@raise A e).
Proof. intros w. simpl. repeat split; auto; discriminate. Qed.

Lemma keeps_lift {A} (r : exn + A) : keeps R Q (lift r).
Proof. destruct r; [apply keeps_raise | apply keeps_ret]. Qed.

Lemma keeps_may_raise o : keeps R Q (may_raise o).
Proof. destruct o; [apply keeps_raise | apply keeps_ret]. Qed.

Lemma keeps_get_world : keeps R Q get_world.
Proof. intros w. simpl. repeat split; auto; discriminate. Qed.

Lemma keeps_emit ev : Q ev -> keeps R Q (emit ev).
Proof. intros H w. simpl. repeat split; auto; discriminate. Qed.

Lemma keeps_bind {A B} (m : M A) (k : A -> M B) :
  keeps R Q m -> (forall a, keeps R Q (k a)) -> keeps R Q (bind m k).
Proof.
  intros Hm Hk w. unfold bind. destruct (Hm w) as (HR & HQ & HB).
  destruct (res (m w)) as [a | e |] eqn:Hres; simpl.
  - destruct (Hk a (post (m w))) as (HR' & HQ' & HB').
    repeat split; eauto. apply Forall_app. auto.
  - repeat split; auto; discriminate.
  - congruence.
Qed.

Lemma keeps_try_except {A} (m : M A) (h : exn -> M A) :
  keeps R Q m -> (forall e, keeps R Q (h e)) -> keeps R Q (try_except m h).
Proof.
  intros Hm Hh w. unfold try_except. destruct (Hm w) as (HR & HQ & HB).
  destruct (res (m w)) as [a | e |] eqn:Hres; simpl.
  - rewrite Hres. auto.
  - destruct (Hh e (post (m w))) as (HR' & HQ' & HB').
    repeat split; eauto. apply Forall_app. auto.
  - congruence.
Qed.

Lemma keeps_try_finally {A} (m : M A) (f : M unit) :
  keeps R Q m -> keeps R Q f -> keeps R Q (try_finally m f).
Proof.
  intros Hm Hf w. unfold try_finally. destruct (Hm w) as (HR & HQ & HB).
  destruct (Hf (post (m w))) as (HR' & HQ' & HB').
  destruct (res (m w)) as [a | e |] eqn:Hres; simpl; [| | congruence].
  - repeat split; eauto; [apply Forall_app; auto |].
    destruct (res (f (post (m w)))); congruence.
  - repeat split; eauto; [apply Forall_app; auto |].
    destruct (res (f (post (m w)))); congruence.
Qed.

Lemma keeps_if {A} (b : bool) (m1 m2 : M A) :
  keeps R Q m1 -> keeps R Q m2 -> keeps R Q (if b then m1 else m2).
Proof. destruct b; auto. Qed.

End Keeps.

End EffFacts.

(** ** Conditional fetch validator: the claims *)

Module ProbeFacts.

(** The whole behaviour of the probe, by cases on the two answers. *)
Lemma head_info_run (E : env) (url : string) (w : world) :
  head_info E url w =
  match head_response E with
  | inr h => mkOut (Ok (read_validators h)) w [EvHead url]
  | inl _ =>
      match probe_get_response E with
      | inr h =>
          mkOut (Ok (read_validators h)) w [EvHead url; EvProbeGet url]
      | inl _ =>
          mkOut (Ok no_validators) w
                [EvHead url; EvProbeGet url; LogProbeFailed url]
      end
  end.
Proof.
  unfold head_info, try_except, session_head, session_get_limit1, bind.
  simpl. destruct (head_response E); simpl; [| reflexivity].
  destruct (probe_get_response E); reflexivity.
Qed.

Lemma head_info_returns (E : env) (url : string) (w : world) :
  exists v, res (head_info E url w) = Ok v
            /\ post (head_info E url w) = w
            /\ Forall (fun ev => is_downloading ev = false
                                 /\ is_skip ev = false
                                 /\ is_failed ev = false
                                 /\ is_processed ev = false
                                 /\ is_body_get ev = false)
                 (emitted (head_info E url w)).
Proof.
  rewrite head_info_run.
  destruct (head_response E); [destruct (probe_get_response E) |];
    eexists; simpl; repeat split; repeat constructor.
Qed.

(** The value does not depend on the world the probe starts in. *)
Lemma head_info_res_indep (E : env) (url : string) (w w' : world) :
  res (head_info E url w) = res (head_info E url w').
Proof.
  rewrite !head_info_run.
  destruct (head_response E); [destruct (probe_get_response E) |];
    reflexivity.
Qed.

End ProbeFacts.


(** ** Download pipeline: how it runs *)

Module DownloadFacts.
Import EffFacts.

Lemma write_chunks_run (p : path) (chunks : list bytes) (w : world) c :
  fs w !! p = Some c ->
  write_chunks p chunks w =
  mkOut (Ok tt)
        (mkWorld (<[p := c ++ concat chunks]> (fs w)) (metadata w)
                 (free_slots w))
        [].
Proof.
  revert w c. induction chunks as [| ch chunks IH]; intros w c Hc.
  - simpl. unfold ret. rewrite app_nil_r, (insert_id _ _ _ Hc), world_eta.
    reflexivity.
  - simpl. destruct ch as [| a ch].
    + simpl. unfold bind, ret. simpl. rewrite (IH w c Hc). reflexivity.
    + unfold bind, file_write, bind, get_world, put_fs. simpl.
      rewrite Hc. simpl.
      rewrite (IH _ (c ++ a :: ch)); simpl.
      * rewrite insert_insert_eq, <- app_assoc. reflexivity.
      * apply lookup_insert_eq.
Qed.

(** The [finally] block of [download_csv] after a body that ended in the
    files [f]: the temporary file goes, unless it cannot be removed. *)
Lemma finally_cleanup (E : env) (tmp : path) (m : M unit) (w : world)
    r f md sl l :
  m w = mkOut r (mkWorld f md sl) l ->
  r <> Blocked ->
  try_finally m
    (present <- path_exists tmp ;;
     if present
     then try_except (path_unlink E tmp) (fun _ => ret tt)
     else ret tt) w
  = mkOut r
      (mkWorld
         (if bool_decide (is_Some (f !! tmp))
          then match unlink_error E with
               | Some _ => f
               | None => delete tmp f
               end
          else f) md sl) l.
Proof.
  intros Hm Hr. unfold try_finally. rewrite Hm.
  unfold path_exists, path_unlink, try_except, bind, get_world, put_fs.
  simpl.
  destruct r as [[] | e |]; [| | congruence];
    destruct (bool_decide (is_Some (f !! tmp))); simpl;
    rewrite ?app_nil_r; try reflexivity;
    destruct (unlink_error E); simpl; rewrite ?app_nil_r; reflexivity.
Qed.

(** The body of the [try] block, by cases on what the network and the
    disk answer. *)
Lemma download_body_run (E : env) (url : string) (dest tmp : path)
    (w : world) :
  (emit (EvBodyGet url) ;;
   match body_response E with
   | BodyRequestFails e => raise e
   | BodyResponse status_ok chunks broken =>
       (if status_ok then ret tt else raise ResponseError) ;;
       open_wb E tmp ;;
       write_chunks tmp chunks ;;
       may_raise broken
   end ;;
   path_replace E tmp dest) w
  =
  let finish (r : result unit) (f : gmap path bytes) :=
    mkOut r (mkWorld f (metadata w) (free_slots w)) [EvBodyGet url] in
  match body_response E with
  | BodyRequestFails e => finish (Raise e) (fs w)
  | BodyResponse false _ _ => finish (Raise ResponseError) (fs w)
  | BodyResponse true chunks broken =>
      match open_error E with
      | Some e => finish (Raise e) (fs w)
      | None =>
          let f1 := <[tmp := concat chunks]> (fs w) in
          match broken with
          | Some e => finish (Raise e) f1
          | None =>
              match replace_error E with
              | Some e => finish (Raise e) f1
              | None =>
                  finish (Ok tt) (<[dest := concat chunks]> (delete tmp f1))
              end
          end
      end
  end.
Proof.
  cbv zeta.
  destruct (body_response E) as [e | [] chunks broken].
  - unfold bind, emit, raise. simpl. now rewrite world_eta.
  - unfold open_wb.
    destruct (open_error E) as [e |].
    + unfold bind, emit, raise, ret, may_raise. simpl. now rewrite world_eta.
    + assert (Hw : forall k : unit -> M unit,
        (emit (EvBodyGet url) ;;
         ((ret tt ;;
           (may_raise None ;; w0 <- get_world ;; put_fs (<[tmp:=[]]> (fs w0))) ;;
           write_chunks tmp chunks ;; may_raise broken) ;; k tt)) w
        = match broken with
          | Some e =>
              mkOut (Raise e)
                (mkWorld (<[tmp := concat chunks]> (fs w)) (metadata w)
                   (free_slots w)) [EvBodyGet url]
          | None =>
              let o := k tt (mkWorld (<[tmp := concat chunks]> (fs w))
                               (metadata w) (free_slots w)) in
              mkOut (res o) (post o) (EvBodyGet url :: emitted o)
          end).
      { intros k. unfold bind. simpl.
        rewrite (write_chunks_run tmp chunks _ []);
          [| simpl; apply lookup_insert_eq].
        simpl. rewrite insert_insert_eq.
        destruct broken; reflexivity. }
      rewrite (Hw (fun _ => path_replace E tmp dest)).
      destruct broken as [e |]; [reflexivity |].
      unfold path_replace.
      destruct (replace_error E) as [e |]; [reflexivity |].
      unfold bind, may_raise, ret, get_world, put_fs. simpl.
      rewrite lookup_insert_eq. reflexivity.
  - unfold bind, emit, raise. simpl. now rewrite world_eta.
Qed.

Lemma bind_ret_l {A B} (a : A) (k : A -> M B) w : bind (ret a) k w = k a w.
Proof. unfold bind, ret. simpl. apply out_eta. Qed.

(** The whole of [download_csv] once the directory exists and the
    temporary name is known. *)
Lemma download_csv_run (E : env) (url : string) (dest tmp : path)
    (w : world) :
  mkdir_error E = None ->
  with_suffix dest ".tmp" = inr tmp ->
  let cleanup (f : gmap path bytes) :=
    if bool_decide (is_Some (f !! tmp))
    then match unlink_error E with Some _ => f | None => delete tmp f end
    else f in
  let finish (r : result unit) (f : gmap path bytes) :=
    mkOut r (mkWorld (cleanup f) (metadata w) (free_slots w))
          [EvBodyGet url] in
  download_csv E url dest w =
  match body_response E with
  | BodyRequestFails e => finish (Raise e) (fs w)
  | BodyResponse false _ _ => finish (Raise ResponseError) (fs w)
  | BodyResponse true chunks broken =>
      match open_error E with
      | Some e => finish (Raise e) (fs w)
      | None =>
          let f1 := <[tmp := concat chunks]> (fs w) in
          match broken with
          | Some e => finish (Raise e) f1
          | None =>
              match replace_error E with
              | Some e => finish (Raise e) f1
              | None =>
                  finish (Ok tt) (<[dest := concat chunks]> (delete tmp f1))
              end
          end
      end
  end.
Proof.
  intros Hmk Htmp. cbv zeta. unfold download_csv.
  rewrite Hmk, Htmp. simpl may_raise. simpl lift. rewrite !bind_ret_l.
  pose proof (download_body_run E url dest tmp w) as Hbody.
  cbv zeta in Hbody.
  destruct (body_response E) as [e | [] chunks broken];
    [| destruct (open_error E);
       [| destruct broken; [| destruct (replace_error E)]] |];
    (erewrite finally_cleanup; [reflexivity | exact Hbody | discriminate]).
Qed.

(** When the directory cannot be made or the temporary name cannot be
    formed, nothing has happened yet. *)
Lemma download_csv_early (E : env) (url : string) (dest : path) (w : world) :
  mkdir_error E <> None \/ (exists e, with_suffix dest ".tmp" = inl e) ->
  exists e, download_csv E url dest w = mkOut (Raise e) w [].
Proof.
  unfold download_csv. destruct (mkdir_error E) as [e |] eqn:Hmk.
  - intros _. exists e. reflexivity.
  - intros [H | [e He]]; [congruence |]. exists e.
    simpl may_raise. rewrite bind_ret_l, He. reflexivity.
Qed.

(** A failed download leaves the destination as it was, when the
    temporary file is another file than the destination. *)
Lemma download_csv_failure_keeps_dest (E : env) (url : string)
    (dest : path) (w : world) e :
  with_suffix dest ".tmp" <> inr dest ->
  res (download_csv E url dest w) = Raise e ->
  fs (post (download_csv E url dest w)) !! dest = fs w !! dest.
Proof.
  intros Hne Hres.
  destruct (mkdir_error E) as [e0 |] eqn:Hmk.
  { destruct (download_csv_early E url dest w) as [e1 ->];
      [left; congruence | reflexivity]. }
  destruct (with_suffix dest ".tmp") as [e0 | tmp] eqn:Htmp.
  { destruct (download_csv_early E url dest w) as [e1 ->];
      [right; eauto | reflexivity]. }
  assert (Hd : tmp <> dest) by congruence.
  rewrite (download_csv_run E url dest tmp w Hmk Htmp) in *.
  cbv zeta in *.
  destruct (body_response E) as [e1 | [] chunks broken];
    [| destruct (open_error E);
       [| destruct broken; [| destruct (replace_error E)]] |];
    simpl in *; try discriminate;
    repeat case_bool_decide; destruct (unlink_error E); simpl;
    rewrite ?lookup_delete_ne, ?lookup_insert_ne by assumption;
    reflexivity.
Qed.

(** A download that returns has put the whole body at the destination
    and left no temporary file. *)
Lemma download_csv_success (E : env) (url : string) (dest tmp : path)
    (w : world) :
  with_suffix dest ".tmp" = inr tmp ->
  tmp <> dest ->
  res (download_csv E url dest w) = Ok tt ->
  exists chunks,
    body_response E = BodyResponse true chunks None
    /\ fs (post (download_csv E url dest w)) !! dest = Some (concat chunks)
    /\ fs (post (download_csv E url dest w)) !! tmp = None.
Proof.
  intros Htmp Hd Hres.
  destruct (mkdir_error E) as [e0 |] eqn:Hmk.
  { destruct (download_csv_early E url dest w) as [e1 He1];
      [left; congruence | rewrite He1 in Hres; discriminate]. }
  rewrite (download_csv_run E url dest tmp w Hmk Htmp) in *.
  cbv zeta in *.
  destruct (body_response E) as [e1 | [] chunks broken];
    [| destruct (open_error E);
       [| destruct broken; [| destruct (replace_error E)]] |];
    simpl in *; try discriminate.
  exists chunks. split; [reflexivity |].
  assert (Hgone : (<[dest:=concat chunks]>
                     (delete tmp (<[tmp:=concat chunks]> (fs w)))) !! tmp
                  = None).
  { rewrite lookup_insert_ne by congruence. apply lookup_delete_eq. }
  rewrite bool_decide_eq_false_2.
  - split; [apply lookup_insert_eq | exact Hgone].
  - rewrite Hgone. intros [? ?]. discriminate.
Qed.

(** With working surroundings and a complete body the download
    returns. *)
Lemma download_csv_returns (E : env) (url : string) (dest tmp : path)
    (w : world) chunks :
  with_suffix dest ".tmp" = inr tmp ->
  mkdir_error E = None -> open_error E = None -> replace_error E = None ->
  body_response E = BodyResponse true chunks None ->
  res (download_csv E url dest w) = Ok tt.
Proof.
  intros Htmp Hmk Hop Hrep Hbody.
  rewrite (download_csv_run E url dest tmp w Hmk Htmp). cbv zeta.
  rewrite Hbody, Hop, Hrep. reflexivity.
Qed.

(** When the destination itself carries the suffix [.tmp], the temporary
    file is the destination, and the [finally] block removes it whatever
    the download did. *)
Lemma download_csv_same_file (E : env) (url : string) (dest : path)
    (w : world) :
  with_suffix dest ".tmp" = inr dest ->
  mkdir_error E = None -> unlink_error E = None ->
  fs (post (download_csv E url dest w)) !! dest = None.
Proof.
  intros Htmp Hmk Hun.
  rewrite (download_csv_run E url dest dest w Hmk Htmp). cbv zeta.
  rewrite Hun.
  destruct (body_response E) as [e1 | [] chunks broken];
    [| destruct (open_error E);
       [| destruct broken; [| destruct (replace_error E)]] |];
    simpl; case_bool_decide as Hs; simpl;
    try apply lookup_delete_eq;
    (destruct (_ !! dest) eqn:Hl; [exfalso; apply Hs; eauto | reflexivity]).
Qed.

(** [download_csv] never touches the ledger or the semaphore, never
    waits, and emits nothing but its body request. *)
Lemma download_csv_keeps (E : env) (url : string) (dest : path) :
  keeps (fun a b => metadata b = metadata a /\ free_slots b = free_slots a)
        (fun ev => ev = EvBodyGet url) (download_csv E url dest).
Proof.
  intros w.
  destruct (mkdir_error E) as [e0 |] eqn:Hmk.
  { destruct (download_csv_early E url dest w) as [e1 ->];
      [left; congruence |]. simpl. repeat split; auto; discriminate. }
  destruct (with_suffix dest ".tmp") as [e0 | tmp] eqn:Htmp.
  { destruct (download_csv_early E url dest w) as [e1 ->];
      [right; eauto |]. simpl. repeat split; auto; discriminate. }
  rewrite (download_csv_run E url dest tmp w Hmk Htmp). cbv zeta.
  destruct (body_response E) as [e1 | [] chunks broken];
    [| destruct (open_error E);
       [| destruct broken; [| destruct (replace_error E)]] |];
    simpl; repeat split; auto; discriminate.
Qed.

End DownloadFacts.

(** ** Sync orchestrator: how it runs *)

Module OrchestratorFacts.
Import EffFacts ProbeFacts DownloadFacts.

Lemma keeps_weaken {A} (R R' : world -> world -> Prop) (Q Q' : event -> Prop)
    (m : M A) :
  (forall a b, R a b -> R' a b) -> (forall ev, Q ev -> Q' ev) ->
  keeps R Q m -> keeps R' Q' m.
Proof.
  intros HR HQ Hm w. destruct (Hm w) as (H1 & H2 & H3).
  repeat split; auto. eapply List.Forall_impl; [| exact H2]. exact HQ.
Qed.

Lemma keeps_put_fs (R : world -> world -> Prop) Q f :
  (forall w g, R w (mkWorld g (metadata w) (free_slots w))) ->
  keeps R Q (put_fs f).
Proof. intros H w. simpl. repeat split; auto; discriminate. Qed.

Lemma keeps_put_metadata (R : world -> world -> Prop) Q m :
  (forall w g, R w (mkWorld (fs w) g (free_slots w))) ->
  keeps R Q (put_metadata m).
Proof. intros H w. simpl. repeat split; auto; discriminate. Qed.

Section Steps.
Context (R : world -> world -> Prop) (Q : event -> Prop).
Hypothesis R_refl : forall w, R w w.
Hypothesis R_trans : forall a b c, R a b -> R b c -> R a c.
Hypothesis R_fs : forall w g, R w (mkWorld g (metadata w) (free_slots w)).

Lemma read_csv_keeps parse_csv p : keeps R Q (read_csv parse_csv p).
Proof.
  unfold read_csv. apply keeps_bind; auto using keeps_get_world.
  intros w. destruct (fs w !! p); auto using keeps_raise, keeps_lift.
Qed.

Lemma to_csv_keeps E df p : keeps R Q (to_csv E df p).
Proof.
  unfold to_csv. destruct (pd_to_csv E df) as [written err].
  apply keeps_bind; auto using keeps_get_world. intros w.
  apply keeps_bind; auto using keeps_may_raise.
  destruct written; auto using keeps_ret, keeps_put_fs.
Qed.

Lemma download_keeps E url dest :
  (forall ev, ev = EvBodyGet url -> Q ev) ->
  keeps R Q (download_csv E url dest).
Proof.
  intros HQ w. destruct (download_csv_keeps E url dest w) as ([Hm Hs] & H2 & H3).
  repeat split; auto.
  - replace (post (download_csv E url dest w))
      with (mkWorld (fs (post (download_csv E url dest w)))
              (metadata w) (free_slots w)); [apply R_fs |].
    rewrite <- Hm, <- Hs. apply world_eta.
  - eapply List.Forall_impl; [| exact H2]. exact HQ.
Qed.

(** Everything in the [try] block before the ledger is written. *)
Lemma fetch_prefix_keeps E url dest_path (k : dataframe -> M unit) :
  Q (LogDownloading url dest_path) -> Q (EvBodyGet url) ->
  Q (LogDownloaded dest_path) -> Q (LogPandasRetry dest_path) ->
  (forall df, keeps R Q (k df)) ->
  keeps R Q
    (emit (LogDownloading url dest_path) ;;
     download_csv E url dest_path ;;
     emit (LogDownloaded dest_path) ;;
     df <- try_except
             (read_csv (pd_read_csv E) dest_path)
             (fun _ =>
                emit (LogPandasRetry dest_path) ;;
                read_csv (pd_read_csv_utf8 E) dest_path) ;;
     k df).
Proof.
  intros Q1 Q2 Q3 Q4 Hk.
  apply keeps_bind; auto using keeps_emit. intros _.
  apply keeps_bind; auto. { apply download_keeps. now intros ev ->. }
  intros _. apply keeps_bind; auto using keeps_emit. intros _.
  apply keeps_bind; auto.
  apply keeps_try_except; auto using read_csv_keeps.
  intros _. apply keeps_bind; auto using keeps_emit, read_csv_keeps.
Qed.

End Steps.

(** The [try] block never waits, never touches the semaphore, and emits
    neither a skip nor a failure. *)
Lemma fetch_steps_keeps E url filename dest_path key info :
  keeps (fun a b => free_slots b = free_slots a)
        (fun ev => is_failed ev = false /\ is_skip ev = false)
        (fetch_steps E url filename dest_path key info).
Proof.
  unfold fetch_steps.
  apply fetch_prefix_keeps; auto; try (intros; congruence).
  intros df.
  apply keeps_bind; try (intros; congruence).
  { apply to_csv_keeps; auto; intros; congruence. }
  intros _. apply keeps_bind; try (intros; congruence).
  { now apply keeps_emit. }
  intros _. apply keeps_bind; try (intros; congruence).
  { apply keeps_get_world. auto. }
  intros w. apply keeps_put_metadata. auto.
Qed.

Lemma records_bind {A} key (m : M A) (k : A -> M unit) Q :
  keeps (fun a b => metadata b = metadata a) Q m ->
  (forall a, records_on_success key (k a)) ->
  records_on_success key (bind m k).
Proof.
  intros Hm Hk w. unfold bind. destruct (Hm w) as (HR & _ & HB).
  destruct (res (m w)) as [a | e |] eqn:Hres; simpl.
  - rewrite <- HR. apply Hk.
  - right. eauto.
  - congruence.
Qed.

(** The [try] block writes its entry with its last step, and only when
    every step before returned. *)
Lemma fetch_steps_records E url filename dest_path key info :
  records_on_success key (fetch_steps E url filename dest_path key info).
Proof.
  unfold fetch_steps.
  set (R := fun a b : world => metadata b = metadata a).
  assert (Hrefl : forall w, R w w) by reflexivity.
  assert (Htrans : forall a b c, R a b -> R b c -> R a c)
    by (unfold R; intros; congruence).
  assert (Hfs : forall w g, R w (mkWorld g (metadata w) (free_slots w)))
    by reflexivity.
  eapply (records_bind _ _ _ (fun _ => True)); [now apply keeps_emit |].
  intros _. eapply (records_bind _ _ _ (fun _ => True)).
  { apply download_keeps; auto. }
  intros _. eapply (records_bind _ _ _ (fun _ => True));
    [now apply keeps_emit |].
  intros _. eapply (records_bind _ _ _ (fun _ => True)).
  { apply keeps_try_except; auto using read_csv_keeps.
    intros _. apply keeps_bind; auto using keeps_emit, read_csv_keeps. }
  intros df. eapply (records_bind _ _ _ (fun _ => True)).
  { apply to_csv_keeps; auto. }
  intros _. eapply (records_bind _ _ _ (fun _ => True));
    [now apply keeps_emit |].
  intros _ w. left. simpl. split; [reflexivity | eauto].
Qed.

Lemma slot_free (w : world) : 0 < free_slots w -> exists n, free_slots w = S n.
Proof. destruct (free_slots w); [lia | eauto]. Qed.

Lemma bind_emit {B} ev (k : unit -> M B) w :
  bind (emit ev) k w
  = mkOut (res (k tt w)) (post (k tt w)) (ev :: emitted (k tt w)).
Proof. reflexivity. Qed.

Lemma bind_get_world {B} (k : world -> M B) w : bind get_world k w = k w w.
Proof. unfold bind, get_world. simpl. apply out_eta. Qed.

Lemma with_semaphore_run {A} (body : M A) (w : world) n :
  free_slots w = S n ->
  let o := body (mkWorld (fs w) (metadata w) n) in
  res o <> Blocked ->
  with_semaphore body w
  = mkOut (res o)
          (mkWorld (fs (post o)) (metadata (post o)) (S (free_slots (post o))))
          (emitted o).
Proof.
  intros Hn o Hb. unfold with_semaphore, bind, acquire. rewrite Hn. simpl.
  unfold try_finally, release. fold o.
  destruct (res o); [| | congruence]; simpl; now rewrite app_nil_r.
Qed.

(** The whole orchestration of one distribution, by cases on the two
    tests. *)
Lemma process_distribution_run (E : env) (ds : string) (d : dist)
    (w : world) n info :
  free_slots w = S n ->
  res (head_info E (d_url d) w) = Ok info ->
  let url := d_url d in
  let key := ledger_key ds url in
  let w1 := mkWorld (fs w) (metadata w) n in
  let pre := LogChecking url :: emitted (head_info E url w1) in
  let prev := metadata w !! key in
  process_distribution E ds d w =
  if etag_unchanged info prev
  then mkOut (Ok tt) w (pre ++ [LogSkipEtag (dest_filename d)])
  else if last_modified_unchanged info prev
  then mkOut (Ok tt) w (pre ++ [LogSkipLastModified (dest_filename d)])
  else
    let o := try_except
               (fetch_steps E url (dest_filename d) (dest_path_of ds d) key
                  info)
               (fun _ => emit (LogFailed url)) w1 in
    mkOut (res o) (mkWorld (fs (post o)) (metadata (post o)) (S n))
          (pre ++ emitted o).
Proof.
  intros Hn Hres. cbv zeta.
  remember (mkWorld (fs w) (metadata w) n) as w1 eqn:Hw1.
  assert (Hm1 : metadata w1 = metadata w) by now subst w1.
  assert (Hs1 : free_slots w1 = n) by now subst w1.
  rewrite (head_info_res_indep E (d_url d) w w1) in Hres.
  destruct (head_info_returns E (d_url d) w1) as (v & _ & Hpost & _).
  assert (Hhi : head_info E (d_url d) w1
                = mkOut (Ok info) w1 (emitted (head_info E (d_url d) w1))).
  { rewrite <- (out_eta (head_info E (d_url d) w1)) at 1.
    now rewrite Hres, Hpost. }
  assert (Hw : mkWorld (fs w) (metadata w) (S n) = w).
  { rewrite <- Hn. apply world_eta. }
  pose proof (fetch_steps_keeps E (d_url d) (dest_filename d)
                (dest_path_of ds d) (ledger_key ds (d_url d)) info w1)
    as (Hslots & _ & Hnb).
  unfold process_distribution.
  match goal with |- with_semaphore ?b w = _ => set (body := b) end.
  assert (Hb : body w1 =
    let o' := (if etag_unchanged info (metadata w !! ledger_key ds (d_url d))
     then emit (LogSkipEtag (dest_filename d))
     else if last_modified_unchanged info (metadata w !! ledger_key ds (d_url d))
     then emit (LogSkipLastModified (dest_filename d))
     else
       try_except
         (fetch_steps E (d_url d) (dest_filename d) (dest_path_of ds d) (ledger_key ds (d_url d)) info)
         (fun _ => emit (LogFailed (d_url d)))) w1 in
    mkOut (res o') (post o') (LogChecking (d_url d) :: emitted (head_info E (d_url d) w1) ++ emitted o')).
  { unfold body. rewrite bind_emit, (bind_ok _ _ _ _ _ _ Hhi), bind_get_world.
    rewrite Hm1. reflexivity. }
  cbv zeta in Hb.
  destruct (etag_unchanged info _);
    [| destruct (last_modified_unchanged info _)].
  - rewrite (with_semaphore_run body w n Hn); rewrite <- Hw1, Hb; simpl; [| discriminate].
    subst w1. simpl. now rewrite Hw.
  - rewrite (with_semaphore_run body w n Hn); rewrite <- Hw1, Hb; simpl; [| discriminate].
    subst w1. simpl. now rewrite Hw.
  - assert (Hnb' : res (try_except
             (fetch_steps E (d_url d) (dest_filename d) 
                (dest_path_of ds d) (ledger_key ds (d_url d)) info)
             (λ _ : exn, emit (LogFailed (d_url d))) w1) <> Blocked
             /\ free_slots (post (try_except
             (fetch_steps E (d_url d) (dest_filename d) 
                (dest_path_of ds d) (ledger_key ds (d_url d)) info)
             (λ _ : exn, emit (LogFailed (d_url d))) w1)) = n).
    { unfold try_except. cbv zeta.
      destruct (res (fetch_steps _ _ _ _ _ _ w1)) eqn:Hf;
        cbn [res post emit]; rewrite ?Hf, ?Hslots;
        split; try discriminate; congruence. }
    destruct Hnb' as [Hnb' Hsl'].
    rewrite (with_semaphore_run body w n Hn); rewrite <- Hw1, Hb; simpl; [| exact Hnb'].
    now rewrite Hsl'.
Qed.
End OrchestratorFacts.

Module EventFacts.
Import EffFacts ProbeFacts OrchestratorFacts.

Lemma existsb_none (p : event -> bool) (l : list event) :
  Forall (fun ev => p ev = false) l -> existsb p l = false.
Proof. induction 1 as [| ev l H _ IH]; simpl; [| rewrite H]; auto. Qed.

Lemma filter_none (p : event -> bool) (l : list event) :
  Forall (fun ev => p ev = false) l -> List.filter p l = [].
Proof. induction 1 as [| ev l H _ IH]; simpl; [| rewrite H]; auto. Qed.

(** The events before the decision: the log line and the probe. *)
Lemma probe_events_quiet (E : env) (url : string) (w : world) :
  Forall (fun ev => is_downloading ev = false
                    /\ is_skip ev = false
                    /\ is_failed ev = false
                    /\ is_processed ev = false
                    /\ is_body_get ev = false)
    (LogChecking url :: emitted (head_info E url w)).
Proof.
  constructor; [repeat split |].
  destruct (head_info_returns E url w) as (v & _ & _ & H). exact H.
Qed.

Lemma fetch_steps_starts (E : env) url filename dest key info (w : world) :
  exists rest,
    emitted (fetch_steps E url filename dest key info w)
    = LogDownloading url dest :: rest.
Proof. unfold fetch_steps. rewrite bind_emit. simpl. eauto. Qed.

Lemma try_fetch_reaches_fetching (E : env) url filename dest key info
    (h : exn -> M unit) (w : world) :
  reaches_fetching
    (emitted (try_except (fetch_steps E url filename dest key info) h w))
  = true.
Proof.
  destruct (fetch_steps_starts E url filename dest key info w) as [rest Hr].
  unfold try_except. cbv zeta.
  destruct (res (fetch_steps _ _ _ _ _ _ w)); cbn [emitted]; rewrite Hr;
    reflexivity.
Qed.

Lemma try_fetch_no_skip (E : env) url filename dest key info (w : world) :
  reaches_skipped
    (emitted (try_except (fetch_steps E url filename dest key info)
                (fun _ => emit (LogFailed url)) w))
  = false.
Proof.
  destruct (fetch_steps_keeps E url filename dest key info w) as (_ & HQ & _).
  unfold try_except. cbv zeta. unfold reaches_skipped.
  assert (Hs : existsb is_skip
                 (emitted (fetch_steps E url filename dest key info w))
               = false).
  { apply existsb_none. eapply List.Forall_impl; [| exact HQ].
    simpl. tauto. }
  destruct (res (fetch_steps _ _ _ _ _ _ w)); cbn [emitted emit];
    rewrite ?existsb_app, Hs; reflexivity.
Qed.

(** A run that logged a failure went through the handler, so its [try]
    block raised and the ledger is the one it started from. *)
Lemma try_fetch_failed_keeps_ledger (E : env) url filename dest key info
    (w : world) :
  let o := try_except (fetch_steps E url filename dest key info)
             (fun _ => emit (LogFailed url)) w in
  reaches_failed (emitted o) = true -> metadata (post o) = metadata w.
Proof.
  cbv zeta.
  destruct (fetch_steps_keeps E url filename dest key info w) as (_ & HQ & _).
  destruct (fetch_steps_records E url filename dest key info w)
    as [[Hok _] | [[x Hx] Hm]];
    unfold try_except; cbv zeta.
  - rewrite Hok. intros Hf. exfalso.
    unfold reaches_failed in Hf. rewrite existsb_none in Hf; [discriminate |].
    eapply List.Forall_impl; [| exact HQ]. simpl. tauto.
  - rewrite Hx. cbn [post emit]. intros _. exact Hm.
Qed.

(** Conversely, a [try] block that raises is logged as failed, and the
    orchestration still returns. *)
Lemma try_fetch_raise_is_failed (E : env) url filename dest key info
    (w : world) x :
  res (fetch_steps E url filename dest key info w) = Raise x ->
  let o := try_except (fetch_steps E url filename dest key info)
             (fun _ => emit (LogFailed url)) w in
  res o = Ok tt /\ reaches_failed (emitted o) = true.
Proof.
  intros Hx. cbv zeta. unfold try_except. cbv zeta. rewrite Hx.
  cbn [res emitted emit]. split; [reflexivity |].
  unfold reaches_failed. rewrite existsb_app. simpl. apply orb_true_r.
Qed.

End EventFacts.

(** ** Sync orchestrator: the claims *)

Section OrchestratorClaims.
Import EffFacts ProbeFacts DownloadFacts OrchestratorFacts EventFacts Sample.

Local Open Scope string_scope.

Ltac quiet_prefix E d w n :=
  pose proof (probe_events_quiet E (d_url d)
                (mkWorld (fs w) (metadata w) n)) as Hquiet.

(** C1, as stated, fails: the stored etag is [v1], the probe answers [v2]
    with the stored last-modified value, and the run ends in the
    last-modified skip without a download. *)
Lemma changed_etag_same_last_modified_skips :
  let E := surroundings
             (inr (headers_of "v2" "Mon, 01 Jan 2024 00:00:00 GMT"))
             (inl ClientError) (BodyResponse true body None) in
  let w := world_of ledger_a in
  let o := process_distribution E "ds1" dist_a w in
  metadata w !! ledger_key "ds1" (d_url dist_a) = Some stored
  /\ e_etag stored = Some "v1"
  /\ res (head_info E (d_url dist_a) w)
     = Ok {| v_last_modified := Some "Mon, 01 Jan 2024 00:00:00 GMT";
             v_etag := Some "v2" |}
  /\ reaches_fetching (emitted o) = false
  /\ emitted o = [LogChecking url_a; EvHead url_a;
                  LogSkipLastModified "a.csv"].
Proof. vm_compute. repeat split. Qed.

(** C1, amended: when the ledger stores an etag for the key and the probe
    returns a non-empty etag that differs from it, the orchestration
    reaches Fetching unless the probe's last-modified value is non-empty
    and equal, as text, to the stored one; in that case it reaches
    SkippedUnchanged. *)
Theorem changed_etag_fetches_unless_last_modified_unchanged
    (E : env) (ds : string) (d : dist) (w : world)
    (info : validators) (e : entry) (remote known : string) :
  0 < free_slots w ->
  res (head_info E (d_url d) w) = Ok info ->
  metadata w !! ledger_key ds (d_url d) = Some e ->
  e_etag e = Some known ->
  v_etag info = Some remote ->
  remote <> EmptyString ->
  remote <> known ->
  let o := process_distribution E ds d w in
  reaches_fetching (emitted o) = negb (last_modified_unchanged info (Some e))
  /\ reaches_skipped (emitted o) = last_modified_unchanged info (Some e).
Proof.
  intros Hslot Hinfo He Hknown Hremote Hne Hdiff. cbv zeta.
  destruct (slot_free w Hslot) as [n Hn].
  rewrite (process_distribution_run E ds d w n info Hn Hinfo). cbv zeta.
  rewrite He.
  assert (Het : etag_unchanged info (Some e) = false).
  { unfold etag_unchanged. simpl. rewrite Hknown, Hremote.
    unfold py_eq. rewrite bool_decide_eq_false_2 by congruence.
    apply andb_false_r. }
  rewrite Het. quiet_prefix E d w n.
  assert (Hd : existsb is_downloading
                 (LogChecking (d_url d)
                  :: emitted (head_info E (d_url d)
                                (mkWorld (fs w) (metadata w) n))) = false).
  { apply existsb_none. eapply List.Forall_impl; [| exact Hquiet].
    simpl. tauto. }
  assert (Hs : existsb is_skip
                 (LogChecking (d_url d)
                  :: emitted (head_info E (d_url d)
                                (mkWorld (fs w) (metadata w) n))) = false).
  { apply existsb_none. eapply List.Forall_impl; [| exact Hquiet].
    simpl. tauto. }
  destruct (last_modified_unchanged info (Some e)); cbn [emitted negb];
    unfold reaches_fetching, reaches_skipped; rewrite !existsb_app, Hd, Hs.
  - split; reflexivity.
  - split.
    + apply try_fetch_reaches_fetching.
    + apply try_fetch_no_skip.
Qed.

Lemma changed_etag_fetches_witness :
  let E := surroundings
             (inr (headers_of "v2" "Tue, 02 Jan 2024 00:00:00 GMT"))
             (inl ClientError) (BodyResponse true body None) in
  reaches_fetching
    (emitted (process_distribution E "ds1" dist_a (world_of ledger_a)))
  = true.
Proof.
  cbv zeta.
  apply (proj1 (changed_etag_fetches_unless_last_modified_unchanged
    (surroundings (inr (headers_of "v2" "Tue, 02 Jan 2024 00:00:00 GMT"))
       (inl ClientError) (BodyResponse true body None))
    "ds1" dist_a (world_of ledger_a)
    {| v_last_modified := Some "Tue, 02 Jan 2024 00:00:00 GMT";
       v_etag := Some "v2" |}
    stored "v2" "v1"
    ltac:(unfold world_of, CONCURRENT_DOWNLOADS; simpl; lia) ltac:(reflexivity) ltac:(reflexivity)
    ltac:(reflexivity) ltac:(reflexivity) ltac:(discriminate)
    ltac:(discriminate))).
Defined.

(** C2: when the ledger holds a non-empty etag for the key and the probe
    returns the same etag, the orchestration reaches SkippedUnchanged:
    it returns, no download is attempted, no body request is sent, and
    the ledger, the files and the semaphore are as before. *)
Theorem same_etag_skips
    (E : env) (ds : string) (d : dist) (w : world)
    (info : validators) (e : entry) (tag : string) :
  0 < free_slots w ->
  res (head_info E (d_url d) w) = Ok info ->
  metadata w !! ledger_key ds (d_url d) = Some e ->
  e_etag e = Some tag ->
  v_etag info = Some tag ->
  tag <> EmptyString ->
  let o := process_distribution E ds d w in
  res o = Ok tt
  /\ reaches_skipped (emitted o) = true
  /\ reaches_fetching (emitted o) = false
  /\ count_events is_body_get (emitted o) = 0
  /\ post o = w
  /\ metadata (post o) !! ledger_key ds (d_url d) = Some e.
Proof.
  intros Hslot Hinfo He Hknown Hremote Hne. cbv zeta.
  destruct (slot_free w Hslot) as [n Hn].
  rewrite (process_distribution_run E ds d w n info Hn Hinfo). cbv zeta.
  rewrite He.
  assert (Het : etag_unchanged info (Some e) = true).
  { unfold etag_unchanged. simpl. rewrite Hknown, Hremote.
    unfold py_eq. rewrite bool_decide_eq_true_2 by reflexivity.
    destruct tag; [congruence | reflexivity]. }
  rewrite Het. cbn [res post emitted]. quiet_prefix E d w n.
  unfold reaches_skipped, reaches_fetching, count_events.
  rewrite !existsb_app, List.filter_app, List.length_app.
  rewrite (existsb_none is_downloading), (filter_none is_body_get);
    try (eapply List.Forall_impl; [| exact Hquiet]; simpl; tauto).
  repeat split; auto. simpl. apply orb_true_r.
Qed.

Lemma same_etag_skips_witness :
  let E := surroundings
             (inr (headers_of "v1" "Tue, 02 Jan 2024 00:00:00 GMT"))
             (inl ClientError) (BodyResponse true body None) in
  post (process_distribution E "ds1" dist_a (world_of ledger_a))
  = world_of ledger_a.
Proof.
  cbv zeta.
  apply (same_etag_skips
    (surroundings (inr (headers_of "v1" "Tue, 02 Jan 2024 00:00:00 GMT"))
       (inl ClientError) (BodyResponse true body None))
    "ds1" dist_a (world_of ledger_a)
    {| v_last_modified := Some "Tue, 02 Jan 2024 00:00:00 GMT";
       v_etag := Some "v1" |}
    stored "v1"
    ltac:(unfold world_of, CONCURRENT_DOWNLOADS; simpl; lia) ltac:(reflexivity) ltac:(reflexivity)
    ltac:(reflexivity) ltac:(reflexivity) ltac:(discriminate)).
Defined.

(** C6: when the orchestration of a distribution reaches Failed, the
    ledger after the run is the ledger before it: no entry was updated,
    created or deleted, the one of this key included. *)
Theorem failed_run_keeps_ledger
    (E : env) (ds : string) (d : dist) (w : world) :
  0 < free_slots w ->
  reaches_failed (emitted (process_distribution E ds d w)) = true ->
  metadata (post (process_distribution E ds d w)) = metadata w
  /\ metadata (post (process_distribution E ds d w))
       !! ledger_key ds (d_url d)
     = metadata w !! ledger_key ds (d_url d).
Proof.
  intros Hslot. destruct (slot_free w Hslot) as [n Hn].
  destruct (head_info_returns E (d_url d) w) as (info & Hinfo & _).
  rewrite (process_distribution_run E ds d w n info Hn Hinfo). cbv zeta.
  quiet_prefix E d w n.
  assert (Hf : existsb is_failed
                 (LogChecking (d_url d)
                  :: emitted (head_info E (d_url d)
                                (mkWorld (fs w) (metadata w) n))) = false).
  { apply existsb_none. eapply List.Forall_impl; [| exact Hquiet].
    simpl. tauto. }
  destruct (etag_unchanged info _);
    [| destruct (last_modified_unchanged info _)];
    cbn [emitted post metadata]; auto.
  unfold reaches_failed. rewrite existsb_app, Hf. simpl orb. intros Hfail.
  apply try_fetch_failed_keeps_ledger in Hfail. simpl in Hfail.
  rewrite Hfail. auto.
Qed.

Lemma failed_run_keeps_ledger_witness :
  let E := surroundings
             (inr (headers_of "v2" "Tue, 02 Jan 2024 00:00:00 GMT"))
             (inl ClientError) (BodyResponse false [] None) in
  metadata (post (process_distribution E "ds1" dist_a (world_of ledger_a)))
  = ledger_a.
Proof.
  cbv zeta.
  apply (failed_run_keeps_ledger
    (surroundings (inr (headers_of "v2" "Tue, 02 Jan 2024 00:00:00 GMT"))
       (inl ClientError) (BodyResponse false [] None))
    "ds1" dist_a (world_of ledger_a)
    ltac:(unfold world_of, CONCURRENT_DOWNLOADS; simpl; lia) ltac:(vm_compute; reflexivity)).
Defined.

End OrchestratorClaims.

(** ** Download pipeline: the claim *)

Section DownloadClaims.
Import Sample.
Local Open Scope string_scope.

(** C5 at the input where the code departs from it: the descriptor names
    the file [a.tmp], so the temporary path is the destination itself;
    the server answers with a non-success status; the [finally] block
    then removes the destination that was on disk before. *)
Theorem download_csv_destination_named_tmp_is_lost :
  let E := surroundings (inl ClientError) (inl ClientError)
             (BodyResponse false [] None) in
  let dest := dest_path_of "ds1" dist_tmp in
  let w := {| fs := {[ dest := list_ascii_of_string "old,header" ]};
              metadata := ∅; free_slots := 8 |} in
  let o := download_csv E url_a dest w in
  dest = ["data"; "ds1"; "a.tmp"]
  /\ with_suffix dest ".tmp" = inr dest
  /\ fs w !! dest = Some (list_ascii_of_string "old,header")
  /\ res o = Raise ResponseError
  /\ fs (post o) !! dest = None.
Proof. vm_compute. repeat split. Qed.

(** X28: with a temporary path that is not the destination, a failed
    download leaves the destination as it was, and a download that
    returns has renamed the complete body onto it and left no temporary
    file. *)
Lemma download_csv_atomic (E : env) (url : string) (dest tmp : path)
    (w : world) :
  with_suffix dest ".tmp" = inr tmp ->
  tmp <> dest ->
  let o := download_csv E url dest w in
  match res o with
  | Ok _ =>
      exists chunks,
        body_response E = BodyResponse true chunks None
        /\ fs (post o) !! dest = Some (concat chunks)
        /\ fs (post o) !! tmp = None
  | _ => fs (post o) !! dest = fs w !! dest
  end.
Proof.
  intros Htmp Hne. cbv zeta.
  destruct (res (download_csv E url dest w)) as [[] | e |] eqn:Hres.
  - now apply DownloadFacts.download_csv_success.
  - eapply DownloadFacts.download_csv_failure_keeps_dest; [congruence | eauto].
  - destruct (DownloadFacts.download_csv_keeps E url dest w) as (_ & _ & H).
    congruence.
Qed.

End DownloadClaims.

(** ** Batch runner: how it runs *)

Module BatchFacts.
Import EffFacts ProbeFacts DownloadFacts OrchestratorFacts EventFacts.

(** Whatever its surroundings do, an orchestration that finds a free
    slot returns, gives the slot back, and writes no other key than its
    own. *)
Lemma process_distribution_returns (E : env) (ds : string) (d : dist)
    (w : world) :
  0 < free_slots w ->
  let o := process_distribution E ds d w in
  res o = Ok tt
  /\ free_slots (post o) = free_slots w
  /\ forall k, k <> ledger_key ds (d_url d) ->
               metadata (post o) !! k = metadata w !! k.
Proof.
  intros Hslot. cbv zeta. destruct (slot_free w Hslot) as [n Hn].
  destruct (head_info_returns E (d_url d) w) as (info & Hinfo & _).
  rewrite (process_distribution_run E ds d w n info Hn Hinfo). cbv zeta.
  destruct (etag_unchanged info _);
    [| destruct (last_modified_unchanged info _)];
    cbn [res post free_slots metadata]; auto.
  set (w1 := mkWorld (fs w) (metadata w) n).
  destruct (fetch_steps_records E (d_url d) (dest_filename d)
              (dest_path_of ds d) (ledger_key ds (d_url d)) info w1)
    as [[Hok [e He]] | [[x Hx] Hm]];
    unfold try_except; cbv zeta.
  - rewrite Hok. rewrite He. repeat split; auto.
    intros k Hk. now rewrite lookup_insert_ne.
  - rewrite Hx. cbn [res post emit]. rewrite Hm. repeat split; auto.
Qed.

Lemma try_except_ok {A} (m : M A) (h : exn -> M A) w a w' l :
  m w = mkOut (Ok a) w' l -> try_except m h w = mkOut (Ok a) w' l.
Proof. intros H. unfold try_except. now rewrite H. Qed.

(** The [try] block in surroundings that work: the body arrives whole,
    the disk obeys, pandas reads the file and writes it back. *)
Lemma fetch_steps_healthy (E : env) (url filename : string)
    (dest tmp : path) (key : string) (info : validators) (w : world)
    chunks df :
  with_suffix dest ".tmp" = inr tmp ->
  tmp <> dest ->
  mkdir_error E = None -> open_error E = None -> replace_error E = None ->
  body_response E = BodyResponse true chunks None ->
  pd_read_csv E (concat chunks) = inr df ->
  snd (pd_to_csv E (headers_to_snakecase_df df)) = None ->
  let o := fetch_steps E url filename dest key info w in
  let df' := headers_to_snakecase_df df in
  res o = Ok tt
  /\ metadata (post o)
     = <[key := new_entry E url filename info df']> (metadata w)
  /\ In (LogProcessed (name dest) (length (rows df'))
           (length (columns df'))) (emitted o).
Proof.
  intros Htmp Hne Hmk Hop Hrep Hbody Hread Hwrite. cbv zeta.
  pose proof (download_csv_returns E url dest tmp w chunks
                Htmp Hmk Hop Hrep Hbody) as Hok.
  destruct (download_csv_success E url dest tmp w Htmp Hne Hok)
    as (chunks' & Hbody' & Hdest & _).
  assert (chunks' = chunks) by congruence. subst chunks'.
  destruct (download_csv_keeps E url dest w) as ([Hmeta _] & _ & _).
  remember (post (download_csv E url dest w)) as w2 eqn:Hw2 in *.
  assert (Hdl : download_csv E url dest w
                = mkOut (Ok tt) w2 (emitted (download_csv E url dest w))).
  { rewrite <- (out_eta (download_csv E url dest w)) at 1.
    now rewrite Hok, Hw2. }
  assert (Hrd : try_except (read_csv (pd_read_csv E) dest)
                  (fun _ => emit (LogPandasRetry dest) ;;
                            read_csv (pd_read_csv_utf8 E) dest) w2
                = mkOut (Ok df) w2 []).
  { apply try_except_ok. unfold read_csv. rewrite bind_get_world.
    cbv beta.
    assert (Hcase : forall o : option bytes, o = Some (concat chunks) ->
              match o with
              | Some b => lift (pd_read_csv E b)
              | None => raise FileNotFoundError
              end w2 = mkOut (Ok df) w2 []).
    { intros o ->. now rewrite Hread. }
    apply Hcase, Hdest. }
  assert (Htc : exists w3,
            to_csv E (headers_to_snakecase_df df) dest w2
            = mkOut (Ok tt) w3 []
            /\ metadata w3 = metadata w2).
  { unfold to_csv.
    destruct (pd_to_csv E (headers_to_snakecase_df df)) as [written err].
    simpl in Hwrite. subst err.
    destruct written; eexists; (split; [reflexivity | reflexivity]). }
  destruct Htc as (w3 & Htc & Hm3).
  unfold fetch_steps.
  rewrite bind_emit, (bind_ok _ _ _ _ _ _ Hdl), bind_emit.
  rewrite (bind_ok _ _ _ _ _ _ Hrd). cbv beta zeta.
  rewrite (bind_ok _ _ _ _ _ _ Htc), bind_emit, bind_get_world.
  cbn [res post emitted put_metadata metadata]. rewrite Hm3, Hmeta.
  split; [reflexivity |]. split; [reflexivity |].
  right. apply in_or_app. right. simpl. auto.
Qed.

Lemma gather_cons {A} (t : M A) (ts : list (M A)) w :
  gather (t :: ts) w
  = mkOut (gather_result (res (t w)) (res (gather ts (post (t w)))))
          (post (gather ts (post (t w))))
          (emitted (t w) ++ emitted (gather ts (post (t w)))).
Proof. reflexivity. Qed.

(** A batch of orchestrations: all return, the slots are as before, and
    a key that belongs to none of them keeps its entry. *)
Lemma gather_tasks_return (jobs : list job) (w : world) :
  0 < free_slots w ->
  let o := gather (map task_of jobs) w in
  res o = Ok (map (fun _ => tt) jobs)
  /\ free_slots (post o) = free_slots w
  /\ forall k, ~ In k (map job_key jobs) ->
               metadata (post o) !! k = metadata w !! k.
Proof.
  revert w. induction jobs as [| j jobs IH]; intros w Hslot; cbv zeta.
  - simpl. repeat split.
  - simpl map. rewrite gather_cons.
    destruct (process_distribution_returns (j_env j) (j_dataset j)
                (j_dist j) w Hslot) as (Hr & Hs & Hk).
    fold (task_of j) in Hr, Hs, Hk.
    assert (Hslot' : 0 < free_slots (post (task_of j w))) by lia.
    destruct (IH (post (task_of j w)) Hslot') as (Hr' & Hs' & Hk').
    cbn [res post]. rewrite Hr, Hr'. repeat split.
    + congruence.
    + intros k Hin. rewrite Hk'.
      * apply Hk. intros ->. apply Hin. now left.
      * intros Hc. apply Hin. now right.
Qed.


(** One orchestration that is due and meets surroundings that work
    reaches Processed and records its entry. *)
Lemma healthy_job_processed (E : env) (ds : string) (d : dist) (w : world)
    (info : validators) (tmp : path) (chunks : list bytes) (df : dataframe) :
  0 < free_slots w ->
  res (head_info E (d_url d) w) = Ok info ->
  etag_unchanged info (metadata w !! ledger_key ds (d_url d)) = false ->
  last_modified_unchanged info (metadata w !! ledger_key ds (d_url d))
  = false ->
  with_suffix (dest_path_of ds d) ".tmp" = inr tmp ->
  tmp <> dest_path_of ds d ->
  mkdir_error E = None -> open_error E = None -> replace_error E = None ->
  body_response E = BodyResponse true chunks None ->
  pd_read_csv E (concat chunks) = inr df ->
  snd (pd_to_csv E (headers_to_snakecase_df df)) = None ->
  let o := process_distribution E ds d w in
  let df' := headers_to_snakecase_df df in
  In (LogProcessed (name (dest_path_of ds d)) (length (rows df'))
        (length (columns df'))) (emitted o)
  /\ metadata (post o) !! ledger_key ds (d_url d)
     = Some (new_entry E (d_url d) (dest_filename d) info df').
Proof.
  intros Hslot Hinfo Het Hlm Htmp Hne Hmk Hop Hrep Hbody Hread Hwrite.
  cbv zeta. destruct (slot_free w Hslot) as [n Hn].
  rewrite (process_distribution_run E ds d w n info Hn Hinfo). cbv zeta.
  rewrite Het, Hlm.
  destruct (fetch_steps_healthy E (d_url d) (dest_filename d)
              (dest_path_of ds d) tmp (ledger_key ds (d_url d)) info
              (mkWorld (fs w) (metadata w) n) chunks df
              Htmp Hne Hmk Hop Hrep Hbody Hread Hwrite)
    as (Hok & Hmeta & Hev).
  unfold try_except. cbv zeta. rewrite Hok. cbn [emitted post metadata].
  split.
  - apply in_or_app. right. exact Hev.
  - rewrite Hmeta. apply lookup_insert_eq.
Qed.

End BatchFacts.

(** ** Batch runner: the claim *)

Section BatchClaims.
Import EffFacts ProbeFacts OrchestratorFacts BatchFacts Sample.
Local Open Scope string_scope.



End BatchClaims.

(** ** Destination file name *)

Module FilenameFacts.
Import NormalizerFacts.


Lemma split_on_nonempty sep (s : text) : split_on sep s <> [].
Proof.
  destruct s as [| c s]; simpl; [discriminate |].
  destruct (Ascii.eqb c sep); [discriminate |].
  destruct (split_on sep s); discriminate.
Qed.

Lemma split_on_app sep (a b : text) :
  split_on sep (a ++ sep :: b) = split_on sep a ++ split_on sep b.
Proof.
  induction a as [| c a IH]; simpl.
  - now rewrite Ascii.eqb_refl.
  - destruct (Ascii.eqb c sep); rewrite IH; [reflexivity |].
    pose proof (split_on_nonempty sep a).
    destruct (split_on sep a); [congruence | reflexivity].
Qed.



End FilenameFacts.



(** ** Freshness ledger on disk: the claim *)

Module LedgerFacts.
Import EffFacts.




End LedgerFacts.



(** ** The run as a whole *)

Module MainFacts.
Import EffFacts OrchestratorFacts.

(** Loading the ledger reads the disk and changes nothing. *)
Lemma load_metadata_pure (H : host) (w : world) :
  post (load_metadata H w) = w /\ exists m, res (load_metadata H w) = Ok m.
Proof.
  unfold load_metadata. rewrite bind_get_world.
  destruct (fs w !! METADATA_FILE) as [b |]; [| simpl; eauto].
  unfold try_except, bind.
  destruct (metadata_read_error H); simpl; eauto.
  destruct (utf8_decode b) as [e | s]; simpl; eauto.
  destruct (json_loads H s); simpl; eauto.
Qed.

(** X29: when the listing cannot be fetched, or has an unexpected shape,
    the run ends before any file is written. *)
Lemma main_async_without_listing (H : host) (l : listing) (w : world) :
  match l with Listing _ => False | _ => True end ->
  fs (post (main_async H l w)) = fs w.
Proof.
  intros Hl. unfold main_async, ensure_dirs.
  destruct (ensure_dirs_error H); [reflexivity |]. simpl may_raise.
  rewrite DownloadFacts.bind_ret_l.
  destruct (load_metadata_pure H w) as [Hpost [m Hm]].
  unfold bind at 1. rewrite Hm, Hpost.
  destruct l as [e | | jobs]; [reflexivity | reflexivity | contradiction].
Qed.



End MainFacts.

(** ** Theme filter: properties *)

Module ThemeFacts.

Local Open Scope string_scope.

Lemma contains_nil_needle_nonempty (p : text) :
  p <> [] -> contains p [] = false.
Proof. destruct p; [congruence | reflexivity]. Qed.

Lemma mentions_hospital_nonempty (s : string) :
  mentions_hospital s = true -> s <> EmptyString.
Proof. intros H ->. discriminate. Qed.

Lemma flat_map_all_nil {A B} (f : A -> list B) (l : list A) :
  (forall a, In a l -> f a = []) -> flat_map f l = [].
Proof.
  induction l as [| a l IH]; intros H; [reflexivity |]. simpl.
  rewrite (H a) by now left. apply IH. intros b Hb. apply H. now right.
Qed.

Lemma in_strings_of (l : list json) (s : string) :
  In s (strings_of l) <-> In (JStr s) l.
Proof.
  unfold strings_of. rewrite in_flat_map. split.
  - intros (e & He & Hs). destruct e; simpl in Hs; try tauto.
    destruct Hs as [<- | []]. exact He.
  - intros H. exists (JStr s). split; [exact H | now left].
Qed.

(** A string under a theme key is one of the extracted values. *)
Lemma theme_string_extracted (d : dict) (k s : string) :
  In k THEME_KEYS -> get d k = JStr s -> s <> EmptyString ->
  exists themes,
    extract_possible_theme_fields (JDict d) = inr themes /\ In s themes.
Proof.
  intros Hk Hget Hne. eexists. split; [reflexivity |].
  apply in_flat_map. exists k. split; [exact Hk |].
  unfold theme_values_at. rewrite Hget. simpl.
  repeat (simpl; case_bool_decide; try contradiction). simpl. now left.
Qed.

Lemma metadata_get_ok (d : dict) (k : string) :
  match assoc d "metadata" with
  | Some v => truthy_json v = true -> exists m, v = JDict m
  | None => True
  end ->
  exists v, metadata_get d k = inr v.
Proof.
  unfold metadata_get. destruct (assoc d "metadata") as [v |]; simpl.
  - intros H. unfold jor. destruct (truthy_json v) eqn:Hv.
    + destruct (H eq_refl) as [m ->]. eauto.
    + simpl. eauto.
  - intros _. simpl. eauto.
Qed.

Lemma hospital_in_fields_ok (d : dict) (keys : list string) :
  match assoc d "metadata" with
  | Some v => truthy_json v = true -> exists m, v = JDict m
  | None => True
  end ->
  exists b, hospital_in_fields d keys = inr b.
Proof.
  intros Hmd. induction keys as [| k ks [b IH]]; simpl; [eauto |].
  assert (Hg : exists v, get_or_metadata d k = inr v).
  { unfold get_or_metadata. destruct (truthy_json (get d k)); [eauto |].
    now apply metadata_get_ok. }
  destruct Hg as [v ->]. rewrite IH.
  destruct v; eauto. destruct (mentions_hospital s); eauto.
Qed.

End ThemeFacts.

(** X1: only dicts pass the theme filter: the test of an item of any other
    kind raises, and [main_async] skips an item whose test raises. *)
Theorem matching_items_are_dicts (items : list json) (it : json) :
  In it (matching_items items) ->
  (exists d, it = JDict d) /\ matches_hospitals_theme it = inr true.
Proof.
  unfold matching_items. rewrite filter_In. intros [_ H].
  destruct (matches_hospitals_theme it) as [e | [|]] eqn:Hm;
    try discriminate.
  split; [| reflexivity].
  destruct it; try discriminate. eauto.
Qed.

Lemma matching_items_are_dicts_witness :
  exists d, SampleCatalog.hospital_item = JDict d.
Proof.
  apply (matching_items_are_dicts
           [JStr "Hospitals"; SampleCatalog.hospital_item; JInt 3]
           SampleCatalog.hospital_item).
  vm_compute. auto.
Defined.

(** X2: a theme-like field of the item that holds a string with
    "hospital" in it, in any case, makes the item match, whatever else
    the item holds. *)
Theorem theme_string_matches (d : dict) (k s : string) :
  In k THEME_KEYS ->
  get d k = JStr s ->
  mentions_hospital s = true ->
  matches_hospitals_theme (JDict d) = inr true.
Proof.
  intros Hk Hget Hs.
  destruct (ThemeFacts.theme_string_extracted d k s Hk Hget
              (ThemeFacts.mentions_hospital_nonempty s Hs))
    as (themes & Hex & Hin).
  unfold matches_hospitals_theme. rewrite Hex.
  assert (Hany : existsb mentions_hospital themes = true).
  { apply existsb_exists. eauto. }
  now rewrite Hany.
Qed.

Lemma theme_string_matches_witness :
  matches_hospitals_theme
    (JDict [("tags", JStr "Acute care HOSPITALS"); ("metadata", JInt 1)])
  = inr true.
Proof.
  apply (theme_string_matches _ "tags" "Acute care HOSPITALS");
    vm_compute; auto 10.
Defined.

(** X3: the test never raises on a dict whose [metadata] field is
    missing, false, or a dict. *)
Theorem matches_hospitals_theme_returns (d : dict) :
  match assoc d "metadata" with
  | Some v => truthy_json v = true -> exists m, v = JDict m
  | None => True
  end ->
  exists b, matches_hospitals_theme (JDict d) = inr b.
Proof.
  intros Hmd. unfold matches_hospitals_theme, extract_possible_theme_fields.
  destruct (existsb mentions_hospital _); [eauto |].
  now apply ThemeFacts.hospital_in_fields_ok.
Qed.

Lemma matches_hospitals_theme_returns_witness :
  exists b, matches_hospitals_theme SampleCatalog.other_item = inr b.
Proof.
  apply (matches_hospitals_theme_returns
           [("identifier", JStr "abcd-1234");
            ("title", JStr "Dialysis facilities");
            ("theme", JList [JStr "Dialysis"])]).
  exact I.
Defined.

(** X4: the test raises on a dict that has no theme-like field and no
    title of its own and whose [metadata] field is true but not a dict:
    the look-up in [metadata] has no [get]. *)
Theorem matches_hospitals_theme_raises (d : dict) (v : json) :
  assoc d "metadata" = Some v ->
  truthy_json v = true ->
  (forall m, v <> JDict m) ->
  (forall k, In k THEME_KEYS -> truthy_json (get d k) = false) ->
  truthy_json (get d "title") = false ->
  matches_hospitals_theme (JDict d) = inl AttributeError.
Proof.
  intros Hmd Hv Hnd Hthemes Htitle.
  unfold matches_hospitals_theme, extract_possible_theme_fields.
  assert (Hnone : flat_map (theme_values_at d) THEME_KEYS = []).
  { apply ThemeFacts.flat_map_all_nil.
    intros k Hk. unfold theme_values_at. rewrite Hmd.
    rewrite (Hthemes k Hk).
    destruct v; try (rewrite (Hthemes k Hk); reflexivity).
    exfalso. now apply (Hnd d0). }
  rewrite Hnone. simpl existsb. cbv iota.
  simpl hospital_in_fields. unfold get_or_metadata at 1.
  rewrite Htitle. unfold metadata_get. rewrite Hmd. simpl default.
  unfold jor. rewrite Hv.
  destruct v; try reflexivity. exfalso. now apply (Hnd d0).
Qed.

Lemma matches_hospitals_theme_raises_witness :
  matches_hospitals_theme SampleCatalog.odd_item = inl AttributeError.
Proof.
  apply (matches_hospitals_theme_raises _ (JStr "n/a")).
  - reflexivity.
  - reflexivity.
  - discriminate.
  - intros k Hk. simpl in Hk.
    repeat (destruct Hk as [<- | Hk]; [reflexivity |]). destruct Hk.
  - reflexivity.
Defined.

(** ** Distribution discovery: properties *)

Module DiscoveryFacts.

Local Open Scope string_scope.

(** What discovery promises of a descriptor. *)
Lemma jor_null_or_truthy (a b : json) :
  b = JNull \/ truthy_json b = true ->
  jor a b = JNull \/ truthy_json (jor a b) = true.
Proof. unfold jor. destruct (truthy_json a) eqn:Ha; auto. Qed.

Lemma descriptor_of_sound (entry : dict) (r : descriptor) :
  descriptor_of entry = inr (Some r) ->
  is_csv_url (r_url r) = true
  /\ (r_filename r = JNull \/ truthy_json (r_filename r) = true).
Proof.
  unfold descriptor_of.
  destruct (truthy_json (jor _ _)); [| discriminate].
  destruct (jor (get entry "downloadURL") _); try discriminate.
  destruct (is_csv_url s) eqn:Hcsv; [| discriminate].
  intros [= <-]. simpl. split; [exact Hcsv |].
  apply jor_null_or_truthy, jor_null_or_truthy. now left.
Qed.

Lemma collect_entries_sound (P : descriptor -> Prop) (entries : list json) :
  (forall entry r, descriptor_of entry = inr (Some r) -> P r) ->
  forall rs, collect_entries entries = inr rs -> Forall P rs.
Proof.
  intros HP. induction entries as [| e es IH]; simpl; intros rs.
  - intros [= <-]. constructor.
  - destruct e; auto.
    destruct (descriptor_of d) as [x | found] eqn:Hd; [discriminate |].
    destruct (collect_entries es) as [x | more]; [discriminate |].
    intros [= <-]. specialize (IH more eq_refl).
    destruct found as [r |]; [constructor; eauto | exact IH].
Qed.

Lemma collect_keys_sound (P : descriptor -> Prop) (d : dict)
    (keys : list string) :
  (forall entry r, descriptor_of entry = inr (Some r) -> P r) ->
  forall rs, collect_keys d keys = inr rs -> Forall P rs.
Proof.
  intros HP. induction keys as [| k ks IH]; simpl; intros rs.
  - intros [= <-]. constructor.
  - destruct (get_or_metadata d k) as [x | maybe]; [discriminate |].
    destruct (truthy_json maybe); [| apply IH].
    destruct (entries_of maybe) as [x | entries]; [discriminate |].
    destruct (collect_entries entries) as [x | found] eqn:Hfound;
      [discriminate |].
    destruct (collect_keys d ks) as [x | more]; [discriminate |].
    intros [= <-]. apply Forall_app. split.
    + eapply collect_entries_sound; eauto.
    + now apply IH.
Qed.

Lemma top_level_sound (d : dict) (r : descriptor) :
  In r (top_level_descriptors d) ->
  is_csv_url (r_url r) = true /\ r_filename r = JNull.
Proof.
  unfold top_level_descriptors. rewrite in_flat_map.
  intros (k & _ & Hr).
  destruct (get d k) as [| | | | s | |]; simpl in Hr; try contradiction.
  destruct (is_csv_url s) eqn:Hcsv; [| contradiction].
  destruct Hr as [<- | []]. auto.
Qed.



End DiscoveryFacts.

Section DiscoveryProperties.
Import DiscoveryFacts SampleCatalog.
Local Open Scope string_scope.

(** X5: every descriptor that discovery returns for an item has a URL that
    passes the CSV test, and a filename that is either [None] or true; an
    empty filename never comes out. *)
Theorem find_csv_distributions_sound (item : json) (rs : list descriptor)
    (r : descriptor) :
  find_csv_distributions item = inr rs ->
  In r rs ->
  is_csv_url (r_url r) = true
  /\ (r_filename r = JNull \/ truthy_json (r_filename r) = true).
Proof.
  unfold find_csv_distributions. destruct item; try discriminate.
  destruct (collect_keys d DISTRIBUTION_KEYS) as [x | found] eqn:Hk;
    [discriminate |].
  pose proof (collect_keys_sound _ d DISTRIBUTION_KEYS descriptor_of_sound
                found Hk) as Hall.
  rewrite List.Forall_forall in Hall.
  destruct found as [| r0 found].
  - intros [= <-] Hin. destruct (top_level_sound d r Hin) as [H1 H2]. auto.
  - intros [= <-] Hin. now apply Hall.
Qed.

Lemma find_csv_distributions_sound_witness :
  is_csv_url "https://data.example/files/Hosp.CSV" = true
  /\ (JStr "General Information" = JNull
      \/ truthy_json (JStr "General Information") = true).
Proof.
  apply (find_csv_distributions_sound hospital_item
           [{| r_url := "https://data.example/files/Hosp.CSV";
               r_filename := JStr "General Information";
               r_last_modified := JStr "2024-01-02";
               r_etag := JNull |}]
           {| r_url := "https://data.example/files/Hosp.CSV";
              r_filename := JStr "General Information";
              r_last_modified := JStr "2024-01-02";
              r_etag := JNull |}).
  - reflexivity.
  - now left.
Defined.

(** X6: a number or a boolean that is true under [distributions] cannot be
    iterated: discovery raises for the item. *)
Theorem find_csv_distributions_not_iterable (d : dict) (v : json) :
  get d "distributions" = v ->
  truthy_json v = true ->
  (forall l, v <> JList l) ->
  (forall m, v <> JDict m) ->
  (forall s, v <> JStr s) ->
  find_csv_distributions (JDict d) = inl NotIterableError.
Proof.
  intros Hget Hv Hl Hm Hs. unfold find_csv_distributions, DISTRIBUTION_KEYS.
  cbn [collect_keys]. unfold get_or_metadata at 1. rewrite Hget, Hv.
  cbv iota. rewrite Hv.
  destruct v; try reflexivity; exfalso;
    [eapply Hs | eapply Hl | eapply Hm]; reflexivity.
Qed.

Lemma find_csv_distributions_not_iterable_witness :
  find_csv_distributions (JDict [("distributions", JInt 2)])
  = inl NotIterableError.
Proof.
  apply (find_csv_distributions_not_iterable _ (JInt 2));
    try reflexivity; discriminate.
Defined.

(** X7: an entry whose URL field holds a true value that is not a string
    has no [lower]: discovery raises for the item. *)
Theorem find_csv_distributions_url_not_string (d : dict) (entry : dict)
    (rest : list json) (u : json) :
  get d "distributions" = JList (JDict entry :: rest) ->
  get entry "downloadURL" = u ->
  truthy_json u = true ->
  (forall s, u <> JStr s) ->
  find_csv_distributions (JDict d) = inl AttributeError.
Proof.
  intros Hget Hu Ht Hs. unfold find_csv_distributions, DISTRIBUTION_KEYS.
  cbn [collect_keys]. unfold get_or_metadata at 1. rewrite Hget.
  cbn [truthy_json]. rewrite bool_decide_eq_false_2 by discriminate.
  cbn [negb entries_of collect_entries].
  assert (Hd : descriptor_of entry = inl AttributeError).
  { assert (Hj : forall b, jor u b = u)
      by (intros b; unfold jor; now rewrite Ht).
    unfold descriptor_of. rewrite Hu, Hj, Ht.
    destruct u; try reflexivity. exfalso. eapply Hs. reflexivity. }
  now rewrite Hd.
Qed.

Lemma find_csv_distributions_url_not_string_witness :
  find_csv_distributions
    (JDict [("distributions",
             JList [JDict [("downloadURL", JList [JStr "a.csv"])]])])
  = inl AttributeError.
Proof.
  apply (find_csv_distributions_url_not_string _
           [("downloadURL", JList [JStr "a.csv"])] []
           (JList [JStr "a.csv"]));
    try reflexivity; discriminate.
Defined.

(** X8: nothing catches what discovery raises: when it raises for one
    matching item, no task is built for any item. *)
Theorem tasks_of_raises (str_other : json -> string)
    (matching : list json) (it : json) (e : pyerr) :
  In it matching ->
  find_csv_distributions it = inl e ->
  exists e', tasks_of str_other matching = inl e'.
Proof.
  intros Hin Hf. induction matching as [| hd rest IH]; [destruct Hin |].
  cbn [tasks_of]. destruct hd; eauto.
  destruct (find_csv_distributions (JDict d)) as [x | dists] eqn:Hd;
    [eauto |].
  destruct Hin as [<- | Hin]; [congruence |].
  destruct (IH Hin) as [e' ->]. eauto.
Qed.

Lemma tasks_of_raises_witness :
  exists e',
    tasks_of str_other
      [hospital_item; JDict [("distributions", JInt 2)]] = inl e'.
Proof.
  apply (tasks_of_raises str_other _
           (JDict [("distributions", JInt 2)]) NotIterableError).
  - right. now left.
  - reflexivity.
Defined.

(** X9: a listing that is a dict without a true [data], [items] or
    [results] is taken as the empty listing, not as an unexpected format:
    discovery goes on with no item and builds no task. *)
Theorem listing_without_items_is_empty (str_other : json -> string)
    (d : dict) :
  truthy_json (get d "data") = false ->
  truthy_json (get d "items") = false ->
  truthy_json (get d "results") = false ->
  listing_items (JDict d) = Some []
  /\ discover str_other (JDict d) = Some (inr []).
Proof.
  intros H1 H2 H3. unfold discover, listing_items, jor.
  rewrite H1, H2, H3. split; reflexivity.
Qed.

Lemma listing_without_items_is_empty_witness :
  listing_items (JDict [("error", JStr "rate limited")]) = Some [].
Proof.
  apply (listing_without_items_is_empty str_other
           [("error", JStr "rate limited")]); reflexivity.
Defined.

(** X10: the first of [data], [items], [results] that is true decides: when
    it is not a list, the listing is refused, even if a later field holds
    one. *)
Theorem listing_first_true_field_decides (d : dict) (v : json) :
  truthy_json v = true ->
  (forall l, v <> JList l) ->
  get d "data" = v
  \/ (truthy_json (get d "data") = false /\ get d "items" = v) ->
  listing_items (JDict d) = None.
Proof.
  intros Hv Hl H. unfold listing_items, jor.
  destruct H as [-> | [H1 ->]]; rewrite ?H1, Hv;
    destruct v; try reflexivity; exfalso; eapply Hl; reflexivity.
Qed.

Lemma listing_first_true_field_decides_witness :
  listing_items
    (JDict [("data", JStr "see results"); ("results", JList [JInt 1])])
  = None.
Proof.
  apply (listing_first_true_field_decides _ (JStr "see results")).
  - reflexivity.
  - discriminate.
  - left. reflexivity.
Defined.

End DiscoveryProperties.

(** ** Dataset ids and tasks: properties *)

Module DatasetIdFacts.
Import DiscoveryFacts.

Local Open Scope string_scope.

Lemma allowed_not_slash (c : ascii) : allowed_in_id c = true -> c <> slash.
Proof. intros H ->. discriminate. Qed.





End DatasetIdFacts.

Section DatasetIdProperties.
Import DiscoveryFacts DatasetIdFacts SampleCatalog.
Local Open Scope string_scope.


(** X12: the value taken for the dataset id is always true: it is the
    first true one of [id], [dataset_id], [identifier], [name], [title],
    and the text [unknown_dataset] when none of them is. *)
Theorem dataset_id_value_default (ds : dict) :
  truthy_json (dataset_id_value ds) = true
  /\ (truthy_json (get ds "id") = false ->
      truthy_json (get ds "dataset_id") = false ->
      truthy_json (get ds "identifier") = false ->
      truthy_json (get ds "name") = false ->
      truthy_json (get ds "title") = false ->
      dataset_id_value ds = JStr "unknown_dataset").
Proof.
  unfold dataset_id_value, jor. split.
  - repeat match goal with
           | |- context [if truthy_json ?v then _ else _] =>
               let H := fresh in destruct (truthy_json v) eqn:H
           end; auto.
  - intros -> -> -> -> ->. reflexivity.
Qed.

Lemma dataset_id_value_default_witness :
  dataset_id_value [("id", JStr ""); ("name", JNull); ("rows", JInt 4)]
  = JStr "unknown_dataset".
Proof.
  apply (proj2 (dataset_id_value_default
                  [("id", JStr ""); ("name", JNull); ("rows", JInt 4)]));
    reflexivity.
Defined.



End DatasetIdProperties.

(** ** Sync orchestrator: further properties *)

Module DecisionFacts.
Import EffFacts ProbeFacts OrchestratorFacts EventFacts.

Lemma quiet_downloading (E : env) (url : string) (w : world) :
  existsb is_downloading (LogChecking url :: emitted (head_info E url w))
  = false.
Proof.
  apply existsb_none.
  eapply List.Forall_impl; [| apply probe_events_quiet]. simpl. tauto.
Qed.

Lemma quiet_skip (E : env) (url : string) (w : world) :
  existsb is_skip (LogChecking url :: emitted (head_info E url w)) = false.
Proof.
  apply existsb_none.
  eapply List.Forall_impl; [| apply probe_events_quiet]. simpl. tauto.
Qed.

Lemma quiet_body_get (E : env) (url : string) (w : world) :
  List.filter is_body_get
    (LogChecking url :: emitted (head_info E url w)) = [].
Proof.
  apply filter_none.
  eapply List.Forall_impl; [| apply probe_events_quiet]. simpl. tauto.
Qed.

(** Either test being true ends the run before the [try] block. *)
Lemma skip_when_unchanged (E : env) (ds : string) (d : dist) (w : world)
    (info : validators) :
  0 < free_slots w ->
  res (head_info E (d_url d) w) = Ok info ->
  etag_unchanged info (metadata w !! ledger_key ds (d_url d))
  || last_modified_unchanged info (metadata w !! ledger_key ds (d_url d))
  = true ->
  let o := process_distribution E ds d w in
  res o = Ok tt
  /\ post o = w
  /\ reaches_skipped (emitted o) = true
  /\ reaches_fetching (emitted o) = false
  /\ count_events is_body_get (emitted o) = 0.
Proof.
  intros Hslot Hinfo Hskip. cbv zeta.
  destruct (slot_free w Hslot) as [n Hn].
  rewrite (process_distribution_run E ds d w n info Hn Hinfo). cbv zeta.
  unfold reaches_skipped, reaches_fetching, count_events.
  destruct (etag_unchanged info _);
    [| destruct (last_modified_unchanged info _); [| discriminate]];
    cbn [res post emitted];
    rewrite !existsb_app, List.filter_app, List.length_app,
      quiet_downloading, quiet_skip, quiet_body_get;
    repeat split.
Qed.

(** Both tests being false leads into the [try] block. *)
Lemma fetch_when_changed (E : env) (ds : string) (d : dist) (w : world)
    (info : validators) :
  0 < free_slots w ->
  res (head_info E (d_url d) w) = Ok info ->
  etag_unchanged info (metadata w !! ledger_key ds (d_url d)) = false ->
  last_modified_unchanged info (metadata w !! ledger_key ds (d_url d))
  = false ->
  let o := process_distribution E ds d w in
  reaches_fetching (emitted o) = true /\ reaches_skipped (emitted o) = false.
Proof.
  intros Hslot Hinfo Het Hlm. cbv zeta.
  destruct (slot_free w Hslot) as [n Hn].
  rewrite (process_distribution_run E ds d w n info Hn Hinfo). cbv zeta.
  rewrite Het, Hlm. cbn [emitted].
  unfold reaches_skipped, reaches_fetching.
  rewrite !existsb_app, quiet_downloading, quiet_skip. split.
  - apply try_fetch_reaches_fetching.
  - apply try_fetch_no_skip.
Qed.

(** One orchestration leaves the ledger as it was or writes its own
    key. *)
Lemma process_distribution_ledger (E : env) (ds : string) (d : dist)
    (w : world) :
  0 < free_slots w ->
  let o := process_distribution E ds d w in
  metadata (post o) = metadata w
  \/ exists e, metadata (post o) = <[ledger_key ds (d_url d) := e]> (metadata w).
Proof.
  intros Hslot. cbv zeta. destruct (slot_free w Hslot) as [n Hn].
  destruct (head_info_returns E (d_url d) w) as (info & Hinfo & _).
  rewrite (process_distribution_run E ds d w n info Hn Hinfo). cbv zeta.
  destruct (etag_unchanged info _);
    [| destruct (last_modified_unchanged info _)];
    cbn [post metadata]; auto.
  set (w1 := mkWorld (fs w) (metadata w) n).
  destruct (fetch_steps_records E (d_url d) (dest_filename d)
              (dest_path_of ds d) (ledger_key ds (d_url d)) info w1)
    as [[Hok [e He]] | [[x Hx] Hm]];
    unfold try_except; cbv zeta.
  - rewrite Hok, He. right. eauto.
  - rewrite Hx. cbn [post emit]. rewrite Hm. now left.
Qed.

End DecisionFacts.

Section OrchestratorProperties.
Import EffFacts ProbeFacts OrchestratorFacts EventFacts BatchFacts
  DecisionFacts Sample.
Local Open Scope string_scope.

(** X14: a last-modified value of the probe that is not empty and equals
    the stored one always ends the run in SkippedUnchanged, whatever the
    two etags are: the run returns, sends no body request, and leaves the
    ledger, the files and the semaphore as they were. *)
Theorem same_last_modified_skips
    (E : env) (ds : string) (d : dist) (w : world)
    (info : validators) (e : entry) (stamp : string) :
  0 < free_slots w ->
  res (head_info E (d_url d) w) = Ok info ->
  metadata w !! ledger_key ds (d_url d) = Some e ->
  e_last_modified e = Some stamp ->
  v_last_modified info = Some stamp ->
  stamp <> EmptyString ->
  let o := process_distribution E ds d w in
  res o = Ok tt
  /\ post o = w
  /\ reaches_skipped (emitted o) = true
  /\ reaches_fetching (emitted o) = false
  /\ count_events is_body_get (emitted o) = 0.
Proof.
  intros Hslot Hinfo He Hstored Hremote Hne.
  apply (skip_when_unchanged E ds d w info); auto. rewrite He.
  assert (Hlm : last_modified_unchanged info (Some e) = true).
  { unfold last_modified_unchanged. simpl. rewrite Hstored, Hremote.
    unfold py_eq. rewrite bool_decide_eq_true_2 by reflexivity.
    destruct stamp; [congruence | reflexivity]. }
  rewrite Hlm. apply orb_true_r.
Qed.

Lemma same_last_modified_skips_witness :
  let E := surroundings
             (inr (headers_of "v9" "Mon, 01 Jan 2024 00:00:00 GMT"))
             (inl ClientError) (BodyResponse true body None) in
  post (process_distribution E "ds1" dist_a (world_of ledger_a))
  = world_of ledger_a.
Proof.
  cbv zeta.
  apply (same_last_modified_skips
    (surroundings (inr (headers_of "v9" "Mon, 01 Jan 2024 00:00:00 GMT"))
       (inl ClientError) (BodyResponse true body None))
    "ds1" dist_a (world_of ledger_a)
    {| v_last_modified := Some "Mon, 01 Jan 2024 00:00:00 GMT";
       v_etag := Some "v9" |}
    stored "Mon, 01 Jan 2024 00:00:00 GMT"
    ltac:(unfold world_of, CONCURRENT_DOWNLOADS; simpl; lia)
    ltac:(reflexivity) ltac:(reflexivity)
    ltac:(reflexivity) ltac:(reflexivity) ltac:(discriminate)).
Defined.

(** X15: with nothing to compare, the download is attempted: when the
    ledger has no entry for the key (a first run), or when the probe
    brought neither an etag nor a last-modified value (both attempts
    failed, or the server sends none), the run reaches Fetching. *)
Theorem nothing_to_compare_fetches
    (E : env) (ds : string) (d : dist) (w : world) (info : validators) :
  0 < free_slots w ->
  res (head_info E (d_url d) w) = Ok info ->
  metadata w !! ledger_key ds (d_url d) = None
  \/ (truthy (v_etag info) = false /\ truthy (v_last_modified info) = false)
  ->
  let o := process_distribution E ds d w in
  reaches_fetching (emitted o) = true
  /\ reaches_skipped (emitted o) = false.
Proof.
  intros Hslot Hinfo Hnone.
  apply (fetch_when_changed E ds d w info Hslot Hinfo);
    unfold etag_unchanged, last_modified_unchanged;
    destruct Hnone as [Hk | [He Hl]]; rewrite ?Hk, ?He, ?Hl; simpl;
    rewrite ?andb_false_r; reflexivity.
Qed.

Lemma nothing_to_compare_fetches_witness :
  let E := surroundings (inl TimeoutError) (inl TimeoutError)
             (BodyResponse true body None) in
  reaches_fetching
    (emitted (process_distribution E "ds1" dist_a (world_of ledger_a)))
  = true.
Proof.
  cbv zeta.
  apply (nothing_to_compare_fetches
    (surroundings (inl TimeoutError) (inl TimeoutError)
       (BodyResponse true body None))
    "ds1" dist_a (world_of ledger_a) no_validators
    ltac:(unfold world_of, CONCURRENT_DOWNLOADS; simpl; lia)
    ltac:(reflexivity)
    ltac:(right; split; reflexivity)).
Defined.

End OrchestratorProperties.

Section RunProperties.
Import EffFacts ProbeFacts OrchestratorFacts EventFacts BatchFacts
  DecisionFacts Sample.
Local Open Scope string_scope.

(** X16: a second run over what a processed run left skips: once a
    distribution was processed with a probe that brought an etag or a
    last-modified value that is not empty, the next run whose probe
    brings the same value returns without a body request and leaves the
    ledger and the files as the first run left them. *)
Theorem second_run_skips
    (E E2 : env) (ds : string) (d : dist) (w : world)
    (info info2 : validators) (tmp : path) (chunks : list bytes)
    (df : dataframe) :
  0 < free_slots w ->
  res (head_info E (d_url d) w) = Ok info ->
  etag_unchanged info (metadata w !! ledger_key ds (d_url d)) = false ->
  last_modified_unchanged info (metadata w !! ledger_key ds (d_url d))
  = false ->
  with_suffix (dest_path_of ds d) ".tmp" = inr tmp ->
  tmp <> dest_path_of ds d ->
  mkdir_error E = None -> open_error E = None -> replace_error E = None ->
  body_response E = BodyResponse true chunks None ->
  pd_read_csv E (concat chunks) = inr df ->
  snd (pd_to_csv E (headers_to_snakecase_df df)) = None ->
  res (head_info E2 (d_url d) w) = Ok info2 ->
  (truthy (v_etag info) = true /\ v_etag info2 = v_etag info)
  \/ (truthy (v_last_modified info) = true
      /\ v_last_modified info2 = v_last_modified info) ->
  let first := process_distribution E ds d w in
  let second := process_distribution E2 ds d (post first) in
  res second = Ok tt
  /\ post second = post first
  /\ reaches_skipped (emitted second) = true
  /\ count_events is_body_get (emitted second) = 0.
Proof.
  intros Hslot Hinfo Het Hlm Htmp Hne Hmk Hop Hrep Hbody Hread Hwrite
    Hinfo2 Hsame. cbv zeta.
  destruct (healthy_job_processed E ds d w info tmp chunks df
              Hslot Hinfo Het Hlm Htmp Hne Hmk Hop Hrep Hbody Hread Hwrite)
    as [_ Hentry].
  destruct (process_distribution_returns E ds d w Hslot) as (_ & Hfree & _).
  set (w' := post (process_distribution E ds d w)) in *.
  assert (Hslot' : 0 < free_slots w') by (rewrite Hfree; exact Hslot).
  assert (Hinfo2' : res (head_info E2 (d_url d) w') = Ok info2).
  { now rewrite (head_info_res_indep E2 (d_url d) w' w). }
  destruct (skip_when_unchanged E2 ds d w' info2 Hslot' Hinfo2')
    as (H1 & H2 & H3 & _ & H5); [| auto].
  rewrite Hentry. unfold etag_unchanged, last_modified_unchanged, new_entry.
  simpl. unfold py_eq.
  destruct Hsame as [[Ht ->] | [Ht ->]]; rewrite Ht.
  - rewrite bool_decide_eq_true_2 by reflexivity. reflexivity.
  - rewrite (bool_decide_eq_true_2 (v_last_modified info
                                    = v_last_modified info)) by reflexivity.
    apply orb_true_r.
Qed.

Lemma second_run_skips_witness :
  let E := surroundings (inr (headers_of "v2" "Tue, 02 Jan 2024"))
             (inl ClientError) (BodyResponse true body None) in
  let first := process_distribution E "ds1" dist_a (world_of ledger_a) in
  let second := process_distribution E "ds1" dist_a (post first) in
  res second = Ok tt
  /\ post second = post first
  /\ reaches_skipped (emitted second) = true
  /\ count_events is_body_get (emitted second) = 0.
Proof.
  cbv zeta.
  apply (second_run_skips
    (surroundings (inr (headers_of "v2" "Tue, 02 Jan 2024"))
       (inl ClientError) (BodyResponse true body None))
    (surroundings (inr (headers_of "v2" "Tue, 02 Jan 2024"))
       (inl ClientError) (BodyResponse true body None))
    "ds1" dist_a (world_of ledger_a)
    {| v_last_modified := Some "Tue, 02 Jan 2024"; v_etag := Some "v2" |}
    {| v_last_modified := Some "Tue, 02 Jan 2024"; v_etag := Some "v2" |}
    ["data"; "ds1"; "a.tmp"] body frame
    ltac:(unfold world_of, CONCURRENT_DOWNLOADS; simpl; lia)
    ltac:(vm_compute; reflexivity) ltac:(vm_compute; reflexivity)
    ltac:(vm_compute; reflexivity) ltac:(vm_compute; reflexivity)
    ltac:(vm_compute; discriminate)
    ltac:(reflexivity) ltac:(reflexivity) ltac:(reflexivity)
    ltac:(reflexivity) ltac:(reflexivity) ltac:(reflexivity)
    ltac:(vm_compute; reflexivity)
    ltac:(left; split; reflexivity)).
Defined.

(** X17: a batch never removes a ledger entry: a key that had an entry
    before the batch has one after it, and the very same one when no
    distribution of the batch has that key. *)
Theorem batch_keeps_ledger_entries (jobs : list job) (w : world)
    (k : string) (e : entry) :
  0 < free_slots w ->
  metadata w !! k = Some e ->
  is_Some (metadata (post (gather (map task_of jobs) w)) !! k)
  /\ (~ In k (map job_key jobs) ->
      metadata (post (gather (map task_of jobs) w)) !! k = Some e).
Proof.
  intros Hslot Hk. split.
  - revert w e Hslot Hk.
    induction jobs as [| j jobs IH]; intros w e Hslot Hk.
    + simpl. eauto.
    + simpl map. rewrite gather_cons. cbn [post].
      destruct (process_distribution_returns (j_env j) (j_dataset j)
                  (j_dist j) w Hslot) as (_ & Hfree & _).
      destruct (process_distribution_ledger (j_env j) (j_dataset j)
                  (j_dist j) w Hslot) as [Hsame | [e' Hins]].
      * apply (IH _ e).
        -- unfold task_of. rewrite Hfree. exact Hslot.
        -- unfold task_of. now rewrite Hsame.
      * destruct (decide (ledger_key (j_dataset j) (d_url (j_dist j)) = k))
          as [Heq | Hneq].
        -- apply (IH _ e').
           ++ unfold task_of. rewrite Hfree. exact Hslot.
           ++ unfold task_of. rewrite Hins, Heq. apply lookup_insert_eq.
        -- apply (IH _ e).
           ++ unfold task_of. rewrite Hfree. exact Hslot.
           ++ unfold task_of. rewrite Hins.
              now rewrite lookup_insert_ne.
  - intros Hnot.
    destruct (gather_tasks_return jobs w Hslot) as (_ & _ & Hkeys).
    now rewrite (Hkeys k Hnot).
Qed.

Lemma batch_keeps_ledger_entries_witness :
  let bad := {| j_env := surroundings (inl TimeoutError) (inl TimeoutError)
                           (BodyResponse false [] None);
                j_dataset := "ds1"; j_dist := dist_a |} in
  is_Some (metadata (post (gather (map task_of [bad]) (world_of ledger_a)))
             !! ledger_key "ds1" url_a).
Proof.
  cbv zeta.
  apply (batch_keeps_ledger_entries
    [{| j_env := surroundings (inl TimeoutError) (inl TimeoutError)
                   (BodyResponse false [] None);
        j_dataset := "ds1"; j_dist := dist_a |}]
    (world_of ledger_a) (ledger_key "ds1" url_a) stored
    ltac:(unfold world_of, CONCURRENT_DOWNLOADS; simpl; lia)
    ltac:(reflexivity)).
Defined.

End RunProperties.

(** ** Descriptors with a filename that is not a string *)

Module DescriptorFacts.
Import EffFacts BatchFacts.

Lemma process_descriptor_outcome (E : env) (id : string) (r : descriptor)
    (w : world) :
  0 < free_slots w ->
  (res (process_descriptor E id r w) = Ok tt
   \/ res (process_descriptor E id r w) = Raise TypeError)
  /\ free_slots (post (process_descriptor E id r w)) = free_slots w.
Proof.
  intros Hslot. unfold process_descriptor.
  destruct (process_distribution_returns E id (dist_of r) w Hslot)
    as (Hres & Hfree & _).
  destruct (r_filename r); try (split; [left |]; assumption);
    match goal with
    | |- context [if ?b then _ else _] => destruct b
    end;
    try (split; [left |]; assumption); split; auto.
Qed.

End DescriptorFacts.

Section DescriptorProperties.
Import EffFacts BatchFacts DescriptorFacts Sample SampleCatalog.
Local Open Scope string_scope.

(** X18: a descriptor whose filename is true and not a string (a number, a
    list, a dict) makes its orchestration raise before the [try] block:
    nothing is probed or logged, and the batch that awaits it raises the
    same [TypeError], whatever the other distributions do. *)
Theorem filename_not_a_string_fails_the_batch
    (before after : list (env * string * descriptor))
    (E : env) (id : string) (r : descriptor) (w : world) :
  truthy_json (r_filename r) = true ->
  (forall s, r_filename r <> JStr s) ->
  0 < free_slots w ->
  process_descriptor E id r w = mkOut (Raise TypeError) w []
  /\ res (gather
            (map (fun t => process_descriptor (fst (fst t)) (snd (fst t))
                             (snd t))
                 (before ++ (E, id, r) :: after)) w)
     = Raise TypeError.
Proof.
  intros Ht Hs Hslot.
  assert (Hbad : forall w', process_descriptor E id r w'
                            = mkOut (Raise TypeError) w' []).
  { intros w'. unfold process_descriptor.
    destruct (r_filename r) as [| b | z | zero | s | l | m];
      cbn [truthy_json] in Ht |- *;
      try discriminate; try (rewrite Ht; reflexivity).
    exfalso. eapply Hs. reflexivity. }
  split; [apply Hbad |].
  revert w Hslot. induction before as [| [[E0 id0] r0] before IH];
    intros w Hslot.
  - simpl app. simpl map. rewrite gather_cons. cbn [fst snd].
    rewrite Hbad. reflexivity.
  - simpl app. simpl map. rewrite gather_cons. cbn [fst snd res].
    destruct (process_descriptor_outcome E0 id0 r0 w Hslot)
      as [[Hr | Hr] Hfree]; rewrite Hr.
    + rewrite IH by (rewrite Hfree; exact Hslot). reflexivity.
    + reflexivity.
Qed.

Lemma filename_not_a_string_fails_the_batch_witness :
  let E := surroundings (inr (headers_of "v2" "Tue, 02 Jan 2024"))
             (inl ClientError) (BodyResponse true body None) in
  process_descriptor E "ds1" numbered (world_of ledger_a)
  = mkOut (Raise TypeError) (world_of ledger_a) [].
Proof.
  cbv zeta.
  apply (filename_not_a_string_fails_the_batch [] []
    (surroundings (inr (headers_of "v2" "Tue, 02 Jan 2024"))
       (inl ClientError) (BodyResponse true body None))
    "ds1" numbered (world_of ledger_a)
    ltac:(reflexivity) ltac:(discriminate)
    ltac:(unfold world_of, CONCURRENT_DOWNLOADS; simpl; lia)).
Defined.

End DescriptorProperties.

(** ** Ledger file and whole run: further properties *)

Section LedgerProperties.
Import EffFacts OrchestratorFacts MainFacts Sample.
Local Open Scope string_scope.

(** X19: loading the ledger never raises and changes nothing: without a
    ledger file, or with one that cannot be read, decoded or parsed, the
    result is the empty ledger; otherwise it is what the json module
    parsed. *)
Theorem load_metadata_never_raises (H : host) (w : world) :
  post (load_metadata H w) = w
  /\ res (load_metadata H w)
     = Ok (match fs w !! METADATA_FILE with
           | None => ∅
           | Some b =>
               match metadata_read_error H with
               | Some _ => ∅
               | None =>
                   match utf8_decode b with
                   | inl _ => ∅
                   | inr s =>
                       match json_loads H s with
                       | inl _ => ∅
                       | inr m => m
                       end
                   end
               end
           end).
Proof.
  unfold load_metadata. rewrite bind_get_world.
  destruct (fs w !! METADATA_FILE) as [b |]; [| split; reflexivity].
  unfold try_except, bind.
  destruct (metadata_read_error H); simpl; [split; reflexivity |].
  destruct (utf8_decode b) as [e | s]; simpl; [split; reflexivity |].
  destruct (json_loads H s); simpl; split; reflexivity.
Qed.

(** The run without a listing, at a concrete input. *)
Lemma main_async_without_listing_witness :
  fs (post (main_async host_empty (ListingFails TimeoutError)
              (world_of ledger_a)))
  = fs (world_of ledger_a).
Proof.
  apply (main_async_without_listing host_empty (ListingFails TimeoutError)
           (world_of ledger_a) I).
Defined.




End LedgerProperties.

(** ** Download pipeline: further properties *)

Section DownloadProperties.
Import EffFacts DownloadFacts Sample.
Local Open Scope string_scope.

(** The atomic replacement, at a concrete input: a download that breaks
    off in the middle of the body. *)
Lemma download_csv_atomic_witness :
  let E := surroundings (inl ClientError) (inl ClientError)
             (BodyResponse true body (Some TimeoutError)) in
  let w := {| fs := {[ ["data"; "ds1"; "a.csv"]
                       := list_ascii_of_string "old,header" ]};
              metadata := ∅; free_slots := 8 |} in
  let dest := ["data"; "ds1"; "a.csv"] in
  let tmp := ["data"; "ds1"; "a.tmp"] in
  let o := download_csv E url_a dest w in
  match res o with
  | Ok _ =>
      exists chunks,
        body_response E = BodyResponse true chunks None
        /\ fs (post o) !! dest = Some (concat chunks)
        /\ fs (post o) !! tmp = None
  | _ => fs (post o) !! dest = fs w !! dest
  end.
Proof.
  exact (download_csv_atomic
    (surroundings (inl ClientError) (inl ClientError)
       (BodyResponse true body (Some TimeoutError)))
    url_a ["data"; "ds1"; "a.csv"] ["data"; "ds1"; "a.tmp"]
    {| fs := {[ ["data"; "ds1"; "a.csv"]
                := list_ascii_of_string "old,header" ]};
       metadata := ∅; free_slots := 8 |}
    ltac:(reflexivity) ltac:(discriminate)).
Defined.

(** X21: a download touches no file but its destination and its temporary
    file. *)
Theorem download_csv_touches_two_files (E : env) (url : string)
    (dest : path) (w : world) (p : path) :
  p <> dest ->
  with_suffix dest ".tmp" <> inr p ->
  fs (post (download_csv E url dest w)) !! p = fs w !! p.
Proof.
  intros Hd Ht.
  destruct (mkdir_error E) as [e0 |] eqn:Hmk.
  { destruct (download_csv_early E url dest w) as [e1 ->];
      [left; congruence | reflexivity]. }
  destruct (with_suffix dest ".tmp") as [e0 | tmp] eqn:Htmp.
  { destruct (download_csv_early E url dest w) as [e1 ->];
      [right; eauto | reflexivity]. }
  assert (Hp : tmp <> p) by congruence.
  rewrite (download_csv_run E url dest tmp w Hmk Htmp). cbv zeta.
  destruct (body_response E) as [e1 | [] chunks broken];
    [| destruct (open_error E);
       [| destruct broken; [| destruct (replace_error E)]] |];
    simpl; repeat case_bool_decide; destruct (unlink_error E); simpl;
    repeat first [ rewrite lookup_delete_ne by congruence
                 | rewrite lookup_insert_ne by congruence ];
    reflexivity.
Qed.

Lemma download_csv_touches_two_files_witness :
  let E := surroundings (inl ClientError) (inl ClientError)
             (BodyResponse true body None) in
  let w := {| fs := {[ ["data"; "ds1"; "b.csv"]
                       := list_ascii_of_string "other" ]};
              metadata := ∅; free_slots := 8 |} in
  fs (post (download_csv E url_a ["data"; "ds1"; "a.csv"] w))
    !! ["data"; "ds1"; "b.csv"]
  = fs w !! ["data"; "ds1"; "b.csv"].
Proof.
  cbv zeta.
  apply (download_csv_touches_two_files
    (surroundings (inl ClientError) (inl ClientError)
       (BodyResponse true body None))
    url_a ["data"; "ds1"; "a.csv"]
    {| fs := {[ ["data"; "ds1"; "b.csv"] := list_ascii_of_string "other" ]};
       metadata := ∅; free_slots := 8 |}
    ["data"; "ds1"; "b.csv"]
    ltac:(discriminate) ltac:(vm_compute; discriminate)).
Defined.

(** X22: once the destination directory exists, a download leaves no
    temporary file behind when the file can be removed, however the
    download ended and whether or not a temporary file of an earlier run
    was lying there; and when it cannot be removed, that failure does not
    change how the download ends. *)
Theorem download_csv_cleans_up (E : env) (url : string)
    (dest tmp : path) (w : world) :
  mkdir_error E = None ->
  with_suffix dest ".tmp" = inr tmp ->
  (unlink_error E = None ->
   fs (post (download_csv E url dest w)) !! tmp = None)
  /\ res (download_csv E url dest w)
     = res (download_csv
              {| head_response := head_response E;
                 probe_get_response := probe_get_response E;
                 body_response := body_response E;
                 mkdir_error := mkdir_error E;
                 open_error := open_error E;
                 replace_error := replace_error E;
                 unlink_error := None;
                 pd_read_csv := pd_read_csv E;
                 pd_read_csv_utf8 := pd_read_csv_utf8 E;
                 pd_to_csv := pd_to_csv E;
                 utcnow_isoformat := utcnow_isoformat E |}
              url dest w).
Proof.
  intros Hmk Htmp. split.
  - intros Hun.
    rewrite (download_csv_run E url dest tmp w Hmk Htmp). cbv zeta.
    rewrite Hun.
    destruct (body_response E) as [e1 | [] chunks broken];
      [| destruct (open_error E);
         [| destruct broken; [| destruct (replace_error E)]] |];
      simpl; case_bool_decide as Hs; simpl;
      try apply lookup_delete_eq;
      (destruct (_ !! tmp) eqn:Hl; [exfalso; apply Hs; eauto | reflexivity]).
  - match goal with
    | |- _ = res (download_csv ?E' url dest w) =>
        rewrite (download_csv_run E' url dest tmp w Hmk Htmp)
    end.
    rewrite (download_csv_run E url dest tmp w Hmk Htmp). cbv zeta.
    simpl.
    destruct (body_response E) as [e1 | [] chunks broken];
      [| destruct (open_error E);
         [| destruct broken; [| destruct (replace_error E)]] |];
      reflexivity.
Qed.

Lemma download_csv_cleans_up_witness :
  let E := surroundings (inl ClientError) (inl ClientError)
             (BodyResponse false [] None) in
  let w := {| fs := {[ ["data"; "ds1"; "a.tmp"]
                       := list_ascii_of_string "half a file" ]};
              metadata := ∅; free_slots := 8 |} in
  fs (post (download_csv E url_a ["data"; "ds1"; "a.csv"] w))
    !! ["data"; "ds1"; "a.tmp"]
  = None.
Proof.
  cbv zeta.
  apply (download_csv_cleans_up
    (surroundings (inl ClientError) (inl ClientError)
       (BodyResponse false [] None))
    url_a ["data"; "ds1"; "a.csv"] ["data"; "ds1"; "a.tmp"]
    {| fs := {[ ["data"; "ds1"; "a.tmp"]
                := list_ascii_of_string "half a file" ]};
       metadata := ∅; free_slots := 8 |}
    ltac:(reflexivity) ltac:(reflexivity)).
  reflexivity.
Defined.

End DownloadProperties.

(** ** Header normalizer: further properties *)

Module WordFacts.
Import Chars CharFacts NormalizerFacts SnakeFacts FilenameFacts.

Lemma lod_alnum c : is_lower_or_digit c = true -> is_alnum c = true.
Proof. all_chars c. Qed.

Lemma lod_lower c : is_lower_or_digit c = true -> lower c = c.
Proof. all_chars c. Qed.

Lemma lod_not_AZ c : is_lower_or_digit c = true -> is_upper_AZ c = false.
Proof. all_chars c. Qed.

Lemma AZ_alnum c : is_upper_AZ c = true -> is_alnum c = true.
Proof. all_chars c. Qed.

Lemma lod_not_space c : is_lower_or_digit c = true -> is_space c = false.
Proof. intros H. now apply word_not_space, alnum_word, lod_alnum. Qed.

Lemma lod_not_blank c : is_lower_or_digit c = true -> c <> space.
Proof. intros H ->. discriminate. Qed.

Lemma sub_special_keeps_all (s : text) :
  Forall (fun c => is_word c || is_space c = true) s -> sub_special s = s.
Proof.
  unfold sub_special.
  induction 1 as [| c s Hc _ IH]; simpl; [reflexivity |].
  rewrite Hc. now f_equal.
Qed.

Lemma sub_runs_from_app p r b (w rest : text) :
  w <> [] -> Forall (fun c => p c = false) w ->
  sub_runs_from p r b (w ++ rest) = w ++ sub_runs_from p r false rest.
Proof.
  intros Hne Hw. revert b Hne.
  induction Hw as [| c w Hc Hw IH]; intros b Hne;
    [exfalso; now apply Hne |].
  simpl. rewrite Hc. f_equal.
  destruct w as [| d w]; [reflexivity |]. apply IH. discriminate.
Qed.

Lemma sanitize_plain (w : text) :
  Forall (fun c => is_lower_or_digit c = true) w -> sanitize w = w.
Proof.
  intros H. rewrite sanitize_alnum.
  - rewrite <- (map_id w) at 2. apply map_ext_in. intros c Hc.
    rewrite List.Forall_forall in H. now apply lod_lower, H.
  - eapply List.Forall_impl; [| exact H]. apply lod_alnum.
Qed.

Lemma split_join sep (words : list text) :
  words <> [] ->
  Forall (fun w => Forall (fun c => c <> sep) w) words ->
  split_on sep (join sep words) = words.
Proof.
  intros Hne H. revert Hne.
  induction H as [| w ws Hw Hws IH]; intros Hne;
    [exfalso; now apply Hne |].
  destruct ws as [| w2 ws].
  - simpl. now apply split_on_single.
  - change (join sep (w :: w2 :: ws)) with (w ++ sep :: join sep (w2 :: ws)).
    rewrite split_on_app, (split_on_single sep w Hw), IH by discriminate.
    reflexivity.
Qed.

Lemma join_app_single sep (l : list text) (x : text) :
  l <> [] -> join sep (l ++ [x]) = join sep l ++ sep :: x.
Proof.
  induction l as [| w l IH]; intros Hne; [exfalso; now apply Hne |].
  destruct l as [| w2 l]; [reflexivity |].
  change (join sep ((w :: w2 :: l) ++ [x]))
    with (w ++ sep :: join sep ((w2 :: l) ++ [x])).
  rewrite IH by discriminate.
  change (join sep (w :: w2 :: l)) with (w ++ sep :: join sep (w2 :: l)).
  now rewrite <- app_assoc.
Qed.

Lemma rev_join sep (words : list text) :
  rev (join sep words) = join sep (rev (map (@rev ascii) words)).
Proof.
  induction words as [| w ws IH]; [reflexivity |].
  destruct ws as [| w2 ws]; [reflexivity |].
  change (join sep (w :: w2 :: ws)) with (w ++ sep :: join sep (w2 :: ws)).
  rewrite rev_app_distr.
  change (rev (sep :: join sep (w2 :: ws)))
    with (rev (join sep (w2 :: ws)) ++ [sep]).
  rewrite IH.
  change (rev (map (@rev ascii) (w :: w2 :: ws)))
    with (rev (map (@rev ascii) (w2 :: ws)) ++ [rev w]).
  rewrite join_app_single.
  - now rewrite <- app_assoc.
  - simpl. destruct (rev (map (@rev ascii) ws)); discriminate.
Qed.

(** Words of lower-case letters and digits, none of them empty. *)
Lemma plain_rev (words : list text) :
  Forall (fun w => w <> []
                   /\ Forall (fun c => is_lower_or_digit c = true) w) words ->
  Forall (fun w => w <> []
                   /\ Forall (fun c => is_lower_or_digit c = true) w)
    (rev (map (@rev ascii) words)).
Proof.
  intros H. apply List.Forall_forall. intros w Hw.
  rewrite <- in_rev in Hw. apply in_map_iff in Hw as (v & <- & Hv).
  rewrite List.Forall_forall in H. destruct (H v Hv) as [Hne Hall]. split.
  - destruct v; [congruence |]. simpl.
    destruct (rev v); discriminate.
  - apply List.Forall_forall. intros c Hc. rewrite <- in_rev in Hc.
    rewrite List.Forall_forall in Hall. auto.
Qed.

Lemma lstrip_join (words : list text) :
  Forall (fun w => w <> []
                   /\ Forall (fun c => is_lower_or_digit c = true) w) words ->
  lstrip (join space words) = join space words.
Proof.
  intros H. destruct H as [| w ws [Hne Hw] Hws]; [reflexivity |].
  destruct w as [| c w]; [congruence |].
  inversion Hw as [| ? ? Hc _]; subst.
  assert (Hhead : exists t, join space ((c :: w) :: ws) = c :: t).
  { destruct ws; simpl; eauto. }
  destruct Hhead as [t ->]. simpl. now rewrite (lod_not_space c Hc).
Qed.

Lemma strip_join (words : list text) :
  Forall (fun w => w <> []
                   /\ Forall (fun c => is_lower_or_digit c = true) w) words ->
  strip (join space words) = join space words.
Proof.
  intros H. unfold strip. rewrite (lstrip_join words H), rev_join.
  rewrite (lstrip_join _ (plain_rev words H)), <- rev_join.
  apply rev_involutive.
Qed.

Lemma join_chars (words : list text) (c : ascii) :
  Forall (fun w => w <> []
                   /\ Forall (fun c => is_lower_or_digit c = true) w) words ->
  In c (join space words) -> c = space \/ is_lower_or_digit c = true.
Proof.
  intros H Hc. apply join_in in Hc as [-> | (w & Hw & Hc)]; [now left |].
  right. rewrite List.Forall_forall in H. destruct (H w Hw) as [_ Hall].
  rewrite List.Forall_forall in Hall. auto.
Qed.

Lemma collapse_join b (words : list text) :
  Forall (fun w => w <> []
                   /\ Forall (fun c => is_lower_or_digit c = true) w) words ->
  sub_runs_from is_space space b (join space words) = join space words.
Proof.
  intros H. revert b.
  induction H as [| w ws [Hne Hw] Hws IH]; intros b; [reflexivity |].
  assert (Hns : Forall (fun c => is_space c = false) w).
  { eapply List.Forall_impl; [| exact Hw]. apply lod_not_space. }
  destruct ws as [| w2 ws].
  - simpl. now apply sub_runs_from_id.
  - change (join space (w :: w2 :: ws))
      with (w ++ space :: join space (w2 :: ws)).
    rewrite (sub_runs_from_app _ _ _ w _ Hne Hns). simpl.
    now rewrite IH.
Qed.

(** The normalizer on words joined by single blanks. *)
Lemma snake_words (words : list text) :
  Forall (fun w => w <> []
                   /\ Forall (fun c => is_lower_or_digit c = true) w) words ->
  snake (join space words) = join underscore words.
Proof.
  intros H. destruct words as [| w0 ws0] eqn:Hwords; [reflexivity |].
  rewrite <- Hwords in *. assert (Hne : words <> []) by (subst; discriminate).
  clear Hwords.
  unfold snake. rewrite sub_special_keeps_all.
  2:{ apply List.Forall_forall. intros c Hc.
      destruct (join_chars words c H Hc) as [-> | Hl]; [reflexivity |].
      now rewrite (alnum_word c (lod_alnum c Hl)). }
  unfold sub_runs. rewrite (collapse_join false words H).
  rewrite (strip_join words H). unfold camel. rewrite camel_from_id.
  2:{ apply List.Forall_forall. intros c Hc.
      destruct (join_chars words c H Hc) as [-> | Hl]; [reflexivity |].
      now apply lod_not_AZ. }
  rewrite split_join; [| exact Hne |].
  2:{ eapply List.Forall_impl; [| exact H]. intros w [_ Hw].
      eapply List.Forall_impl; [| exact Hw]. apply lod_not_blank. }
  f_equal.
  assert (Hfilter : List.filter nonempty words = words).
  { clear Hne. induction H as [| w ws [Hw _] _ IH]; [reflexivity |].
    simpl. destruct w; [congruence |]. simpl. now rewrite IH. }
  rewrite Hfilter. rewrite <- (map_id words) at 2.
  apply map_ext_in. intros w Hw. rewrite List.Forall_forall in H.
  apply sanitize_plain. now apply H.
Qed.

Lemma camel_from_boundary prev (a b : text) (C : ascii) :
  a <> [] ->
  Forall (fun c => is_lower_or_digit c = true) a ->
  is_upper_AZ C = true ->
  camel_from prev (a ++ C :: b)
  = a ++ space :: C :: camel_from (Some C) b.
Proof.
  intros Hne Ha HC. revert prev Hne.
  induction Ha as [| c a Hc Ha IH]; intros prev Hne;
    [exfalso; now apply Hne |].
  simpl. rewrite (lod_not_AZ c Hc). simpl. f_equal.
  destruct a as [| d a].
  - simpl. now rewrite HC, Hc.
  - apply IH. discriminate.
Qed.

(** The normalizer on one camel-case boundary. *)
Lemma snake_camel (a b : text) (C : ascii) :
  a <> [] ->
  Forall (fun c => is_lower_or_digit c = true) a ->
  Forall (fun c => is_lower_or_digit c = true) b ->
  is_upper_AZ C = true ->
  snake (a ++ C :: b) = a ++ underscore :: lower C :: b.
Proof.
  intros Hne Ha Hb HC.
  assert (Hal : Forall (fun c => is_alnum c = true) (a ++ C :: b)).
  { apply Forall_app. split; [| constructor; [now apply AZ_alnum |]];
      (eapply List.Forall_impl; [| eassumption]); apply lod_alnum. }
  assert (Hw : Forall (fun c => is_word c = true) (a ++ C :: b)).
  { eapply List.Forall_impl; [| exact Hal]. apply alnum_word. }
  assert (Hs : Forall (fun c => is_space c = false) (a ++ C :: b)).
  { eapply List.Forall_impl; [| exact Hw]. apply word_not_space. }
  unfold snake. rewrite (sub_special_id _ Hw).
  unfold sub_runs. rewrite (sub_runs_from_id _ _ _ _ Hs).
  rewrite (strip_id _ Hs). unfold camel.
  rewrite (camel_from_boundary None a b C Hne Ha HC).
  rewrite (camel_from_id (Some C) b).
  2:{ eapply List.Forall_impl; [| exact Hb]. apply lod_not_AZ. }
  rewrite split_on_app.
  rewrite (split_on_single space a).
  2:{ eapply List.Forall_impl; [| exact Ha]. apply lod_not_blank. }
  rewrite (split_on_single space (C :: b)).
  2:{ constructor.
      - intros ->. discriminate.
      - eapply List.Forall_impl; [| exact Hb]. apply lod_not_blank. }
  simpl app. destruct a as [| c a]; [congruence |].
  simpl List.filter. simpl map. simpl join.
  rewrite (sanitize_plain (c :: a) Ha).
  rewrite sanitize_alnum.
  2:{ constructor; [now apply AZ_alnum |].
      eapply List.Forall_impl; [| exact Hb]. apply lod_alnum. }
  simpl map. f_equal. f_equal. f_equal.
  rewrite <- (map_id b) at 2. apply map_ext_in. intros d Hd.
  rewrite List.Forall_forall in Hb. now apply lod_lower, Hb.
Qed.

End WordFacts.

Section NormalizerProperties.
Import Chars CharFacts NormalizerFacts SnakeFacts WordFacts.
Local Open Scope string_scope.



(** X24: lower-case words (letters a to z and digits, none empty) joined by
    single blanks are normalized to the same words joined by
    underscores. *)
Theorem to_snake_case_words (words : list text) :
  Forall (fun w => w <> []
                   /\ Forall (fun c => is_lower_or_digit c = true) w) words ->
  to_snake_case (Some (string_of_list_ascii (join space words)))
  = string_of_list_ascii (join underscore words).
Proof.
  intros H. unfold to_snake_case.
  rewrite list_ascii_of_string_of_list_ascii. f_equal.
  now apply snake_words.
Qed.

Lemma to_snake_case_words_witness :
  to_snake_case (Some "hospital overall rating 2024")
  = "hospital_overall_rating_2024".
Proof.
  apply (to_snake_case_words
           [list_ascii_of_string "hospital"; list_ascii_of_string "overall";
            list_ascii_of_string "rating"; list_ascii_of_string "2024"]).
  repeat constructor; try discriminate.
Defined.

(** X25: a capital A to Z that follows lower-case letters and digits starts
    a new token: the header [a ++ C ++ b], with [a] and [b] of lower-case
    letters and digits and [a] not empty, is normalized to [a], an
    underscore, the lower-cased [C], and [b]. *)
Theorem to_snake_case_camel (a b : text) (C : ascii) :
  a <> [] ->
  Forall (fun c => is_lower_or_digit c = true) a ->
  Forall (fun c => is_lower_or_digit c = true) b ->
  is_upper_AZ C = true ->
  to_snake_case (Some (string_of_list_ascii (a ++ C :: b)))
  = string_of_list_ascii (a ++ underscore :: lower C :: b).
Proof.
  intros Hne Ha Hb HC. unfold to_snake_case.
  rewrite list_ascii_of_string_of_list_ascii. f_equal.
  now apply snake_camel.
Qed.

Lemma to_snake_case_camel_witness :
  to_snake_case (Some "overallRating") = "overall_rating".
Proof.
  apply (to_snake_case_camel (list_ascii_of_string "overall")
           (list_ascii_of_string "ating") "R");
    [discriminate | repeat constructor | repeat constructor | reflexivity].
Defined.

End NormalizerProperties.

(** ** Temporary paths: properties *)

Module SuffixFacts.
Import FilenameFacts.

Lemma rfind_none ch (s : text) : ~ In ch s -> rfind ch s = None.
Proof.
  induction s as [| c s IH]; [reflexivity |]. intros Hno. simpl.
  rewrite IH by (intros H; apply Hno; now right).
  destruct (Ascii.eqb c ch) eqn:Hc; [| reflexivity].
  apply Ascii.eqb_eq in Hc. exfalso. apply Hno. now left.
Qed.

Lemma rfind_last ch (stem e : text) :
  ~ In ch e -> rfind ch (stem ++ ch :: e) = Some (length stem).
Proof.
  intros Hno. induction stem as [| c stem IH]; simpl.
  - now rewrite (rfind_none ch e Hno), Ascii.eqb_refl.
  - now rewrite IH.
Qed.

Lemma rfind_bound ch (s : text) i : rfind ch s = Some i -> i < length s.
Proof.
  revert i. induction s as [| c s IH]; intros i; simpl; [discriminate |].
  destruct (rfind ch s) as [j |].
  - intros [= <-]. specialize (IH j eq_refl). lia.
  - destruct (Ascii.eqb c ch); [| discriminate]. intros [= <-]. lia.
Qed.

(** A name is its stem followed by its suffix. *)
Lemma stem_suffix (n : text) :
  firstn (length n - length (suffix n)) n ++ suffix n = n.
Proof.
  unfold suffix. destruct (rfind dot n) as [i |] eqn:Hr.
  - destruct ((0 <? i) && (i <? length n - 1)) eqn:Hc.
    + pose proof (rfind_bound dot n i Hr). rewrite length_skipn.
      replace (length n - (length n - i)) with i by lia.
      apply firstn_skipn.
    + simpl. rewrite Nat.sub_0_r, firstn_all. apply app_nil_r.
  - simpl. rewrite Nat.sub_0_r, firstn_all. apply app_nil_r.
Qed.

Lemma suffix_of_extension (stem e : text) :
  stem <> [] -> e <> [] -> ~ In dot e ->
  suffix (stem ++ dot :: e) = dot :: e.
Proof.
  intros Hs He Hno. unfold suffix. rewrite (rfind_last dot stem e Hno).
  rewrite length_app. simpl length.
  assert (H1 : (0 <? length stem) = true).
  { apply Nat.ltb_lt. destruct stem; [congruence | simpl; lia]. }
  assert (H2 : (length stem <? length stem + S (length e) - 1) = true).
  { apply Nat.ltb_lt. destruct e; [congruence | simpl; lia]. }
  rewrite H1, H2. simpl andb. cbv iota.
  rewrite skipn_app, skipn_all, Nat.sub_diag. reflexivity.
Qed.

(** A path whose name is not empty ends in that name. *)
Lemma path_ends_in_name (p : path) :
  name p <> EmptyString -> p = removelast p ++ [name p].
Proof.
  unfold name. destruct (rev p) as [| n r] eqn:Hr; [congruence |].
  case_bool_decide; [congruence |]. intros _.
  apply (f_equal (@rev string)) in Hr. rewrite rev_involutive in Hr.
  simpl in Hr. subst p. now rewrite removelast_last.
Qed.

Lemma name_of_last (dir : path) (n : string) :
  n <> root -> name (dir ++ [n]) = n.
Proof.
  intros Hn. unfold name. rewrite rev_app_distr. simpl.
  now rewrite bool_decide_eq_false_2.
Qed.

Lemma string_of_app (a b : text) :
  (string_of_list_ascii a +:+ string_of_list_ascii b
   = string_of_list_ascii (a ++ b))%string.
Proof.
  induction a as [| c a IH]; [reflexivity | simpl].
  rewrite <- IH. reflexivity.
Qed.

Lemma with_suffix_run (p : path) (suf : string) :
  name p <> EmptyString ->
  with_suffix p suf
  = inr (removelast p
         ++ [(string_of_list_ascii
                (firstn (length (list_ascii_of_string (name p))
                         - length (suffix (list_ascii_of_string (name p))))
                   (list_ascii_of_string (name p))) +:+ suf)%string]).
Proof.
  intros Hname. unfold with_suffix.
  destruct (list_ascii_of_string (name p)) as [| c n] eqn:Hn;
    [| reflexivity].
  exfalso. apply Hname.
  rewrite <- (string_of_list_ascii_of_string (name p)), Hn. reflexivity.
Qed.

Lemma string_of_inj (a b : text) :
  string_of_list_ascii a = string_of_list_ascii b -> a = b.
Proof.
  intros H. apply (f_equal list_ascii_of_string) in H.
  now rewrite !list_ascii_of_string_of_list_ascii in H.
Qed.

End SuffixFacts.

Section SuffixProperties.
Import SuffixFacts.
Local Open Scope string_scope.

(** X26: the temporary path of a download is its destination exactly when
    the name of the destination already ends in the suffix [.tmp]. *)
Theorem temporary_path_is_destination_iff (p : path) :
  name p <> EmptyString ->
  with_suffix p ".tmp" = inr p
  <-> suffix (list_ascii_of_string (name p)) = list_ascii_of_string ".tmp".
Proof.
  intros Hname. rewrite (with_suffix_run p ".tmp" Hname).
  set (n := list_ascii_of_string (name p)).
  pose proof (stem_suffix n) as Hsplit.
  set (stem := firstn (length n - length (suffix n)) n) in *.
  assert (Hn : name p = string_of_list_ascii n).
  { unfold n. now rewrite string_of_list_ascii_of_string. }
  pose proof (path_ends_in_name p Hname) as Hp.
  assert (Htmp : (string_of_list_ascii stem +:+ ".tmp")%string
                 = string_of_list_ascii (stem ++ list_ascii_of_string ".tmp")).
  { now rewrite <- string_of_app. }
  rewrite Htmp. clear Htmp.
  split.
  - intros Heq. injection Heq as Heq. pose proof (eq_trans Heq Hp) as Heq'.
    apply app_inv_head in Heq'. injection Heq' as Heq'. clear Heq.
    rename Heq' into Heq.
    rewrite Hn in Heq. apply string_of_inj in Heq.
    rewrite <- Hsplit in Heq. apply app_inv_head in Heq. now symmetry.
  - intros Hs. rewrite <- Hs, Hsplit, <- Hn, <- Hp. reflexivity.
Qed.

Lemma temporary_path_is_destination_iff_witness :
  with_suffix ["data"; "ds1"; "a.tmp"] ".tmp"
  = inr ["data"; "ds1"; "a.tmp"].
Proof.
  apply (proj2 (temporary_path_is_destination_iff ["data"; "ds1"; "a.tmp"]
                  ltac:(discriminate))).
  reflexivity.
Defined.

(** X27: two destinations in one directory whose names differ only in
    their extension have the same temporary path: the stem with
    [.tmp]. *)
Theorem temporary_path_shared (dir : path) (stem e1 e2 : text) :
  stem <> [] -> e1 <> [] -> e2 <> [] ->
  ~ In dot e1 -> ~ In dot e2 ->
  with_suffix (dir ++ [string_of_list_ascii (stem ++ dot :: e1)])%list ".tmp"
  = inr (dir ++ [string_of_list_ascii stem +:+ ".tmp"])%list
  /\ with_suffix (dir ++ [string_of_list_ascii (stem ++ dot :: e2)])%list
       ".tmp"
     = inr (dir ++ [string_of_list_ascii stem +:+ ".tmp"])%list.
Proof.
  intros Hs H1 H2 Hn1 Hn2.
  assert (Hone : forall e, e <> [] -> ~ In dot e ->
            with_suffix
              (dir ++ [string_of_list_ascii (stem ++ dot :: e)])%list ".tmp"
            = inr (dir ++ [string_of_list_ascii stem +:+ ".tmp"])%list).
  { intros e He Hno. unfold with_suffix.
    assert (Hroot : string_of_list_ascii (stem ++ dot :: e) <> root).
    { intros H. apply (f_equal list_ascii_of_string) in H.
      rewrite list_ascii_of_string_of_list_ascii in H.
      apply (f_equal (@length ascii)) in H. rewrite length_app in H.
      simpl in H. destruct stem; [congruence | simpl in H; lia]. }
    rewrite (name_of_last dir _ Hroot).
    rewrite list_ascii_of_string_of_list_ascii.
    rewrite (suffix_of_extension stem e Hs He Hno).
    rewrite removelast_last.
    destruct (stem ++ dot :: e)%list as [| c l] eqn:Hl.
    { destruct stem; discriminate. }
    rewrite <- Hl. rewrite length_app.
    replace (length stem + length (dot :: e) - length (dot :: e))
      with (length stem) by lia.
    rewrite firstn_app, firstn_all, Nat.sub_diag. simpl firstn.
    now rewrite app_nil_r. }
  split; now apply Hone.
Qed.

Lemma temporary_path_shared_witness :
  with_suffix ["data"; "ds1"; "report.2023"] ".tmp"
  = inr ["data"; "ds1"; "report.tmp"]
  /\ with_suffix ["data"; "ds1"; "report.2024"] ".tmp"
     = inr ["data"; "ds1"; "report.tmp"].
Proof.
  apply (temporary_path_shared ["data"; "ds1"]
           (list_ascii_of_string "report")
           (list_ascii_of_string "2023") (list_ascii_of_string "2024"));
    try discriminate; vm_compute; intuition discriminate.
Defined.

End SuffixProperties.
